(** * mycontroller.py: a P4Runtime controller for a three-switch full mesh

    A shallow embedding of [mycontroller.py].  The controller is a
    sequential script: it truncates three log files, connects to the
    switches s1, s2 and s3, pushes the P4 pipeline, writes the forwarding
    rules and then polls the tunnel counters forever.

    Everything the script does to the outside world (files, the P4Runtime
    sessions, the clock, the console) is recorded as a list of events, in
    program order.  The outside world is an oracle [Env] that decides, for
    every call, whether it raises a Python exception and what a counter
    read or the clock returns. *)

From Stdlib Require Import List String Ascii ZArith Lia Bool Arith DecimalString.
Import ListNotations.

Open Scope string_scope.
Open Scope Z_scope.

(** ** Constants of the script *)

Definition H1_IP := "10.0.1.1".
Definition H1_MAC := "08:00:00:00:01:11".
Definition H2_IP := "10.0.2.2".
Definition H2_MAC := "08:00:00:00:02:22".
Definition H3_IP := "10.0.3.3".
Definition H3_MAC := "08:00:00:00:03:33".

Definition TID_S1_S2 := 100.
Definition TID_S2_S1 := 101.
Definition TID_S1_S3 := 200.
Definition TID_S3_S1 := 201.
Definition TID_S2_S3 := 300.
Definition TID_S3_S2 := 301.

Definition S1_H1_PORT := 1.
Definition S1_S2_PORT := 2.
Definition S1_S3_PORT := 3.

Definition S2_H2_PORT := 1.
Definition S2_S1_PORT := 2.
Definition S2_S3_PORT := 3.

Definition S3_H3_PORT := 1.
Definition S3_S1_PORT := 2.
Definition S3_S2_PORT := 3.

(** ** Data *)

(** The keyword arguments of [Bmv2SwitchConnection(...)]. *)
Record Bmv2SwitchConnection := mkSwitch {
  name : string;
  address : string;
  device_id : Z;
  proto_dump_file : string
}.

Definition s1 := mkSwitch "s1" "127.0.0.1:50051" 0 "logs/s1-p4runtime-requests.txt".
Definition s2 := mkSwitch "s2" "127.0.0.1:50052" 1 "logs/s2-p4runtime-requests.txt".
Definition s3 := mkSwitch "s3" "127.0.0.1:50053" 2 "logs/s3-p4runtime-requests.txt".

(** Two connections are the same device when their names agree. *)
Definition same_switch (a b : Bmv2SwitchConnection) : bool :=
  String.eqb (name a) (name b).

(** The values of the [match_fields] and [action_params] dictionaries
    handed to [buildTableEntry]. *)
Inductive MatchValue :=
| Lpm (addr : string) (prefix_len : Z)
| Exact (value : Z).

Inductive ParamValue :=
| PStr (s : string)
| PInt (z : Z).

(** The arguments of [p4info_helper.buildTableEntry]; the dictionaries
    are association lists. *)
Record TableEntry := mkTableEntry {
  table_name : string;
  match_fields : list (string * MatchValue);
  action_name : string;
  action_params : list (string * ParamValue)
}.

(** [counter.data] of a counter entry. *)
Record CounterData := mkCounterData {
  packet_count : Z;
  byte_count : Z
}.

(** Python exceptions, as far as the script tells them apart:
    [KeyboardInterrupt] derives from [BaseException] only, [grpc.RpcError]
    and everything in [OtherException] derive from [Exception]. *)
Inductive PyExc :=
| KeyboardInterrupt
| RpcError (details : string)
| OtherException (msg : string).

Definition isinstance_Exception (e : PyExc) : bool :=
  match e with
  | KeyboardInterrupt => false
  | RpcError _ | OtherException _ => true
  end.

Definition isinstance_KeyboardInterrupt (e : PyExc) : bool :=
  match e with KeyboardInterrupt => true | _ => false end.

Definition isinstance_RpcError (e : PyExc) : bool :=
  match e with RpcError _ => true | _ => false end.

(** [str(e)] *)
Definition exc_str (e : PyExc) : string :=
  match e with
  | KeyboardInterrupt => ""
  | RpcError d => d
  | OtherException m => m
  end.

(** [str(n)] of a Python int, as an f-string prints it. *)
Definition str_int (z : Z) : string := NilZero.string_of_int (Z.to_int z).

Definition nl : string := String (ascii_of_nat 10) "".

(** ** Calls, events and the environment *)

(** The calls the script makes to its collaborators (the file system,
    the P4Runtime library, the clock's [sleep]). *)
Inductive Call :=
| P4InfoHelper
| OpenTruncate (path : string)
| Connect (sw : Bmv2SwitchConnection)
| MasterArbitrationUpdate (sw : Bmv2SwitchConnection)
| SetForwardingPipelineConfig (sw : Bmv2SwitchConnection)
| WriteTableEntry (sw : Bmv2SwitchConnection) (entry : TableEntry)
| Sleep (secs : Z)
| ReadCounters (sw : Bmv2SwitchConnection) (counter_name : string) (index : Z)
| OpenAppendWrite (path : string) (data : string)
| ShutdownAllSwitchConnections.

(** What an observer sees, in program order: each call with the exception
    it raised (if any), each line printed on stdout or stderr, and each
    [printGrpcError(e)]. *)
Inductive Event :=
| EvCall (c : Call) (raised : option PyExc)
| EvStdout (s : string)
| EvStderr (s : string)
| EvGrpcError (e : PyExc).

(** The environment.  [raises n c] says whether call [c], made as the
    [n]-th interaction, raises; [responses n c] are the responses a
    [ReadCounters] stream yields before it ends or raises (each response
    is its list of entities); [isoformat n] is what
    [datetime.datetime.now().isoformat()] returns at interaction [n]. *)
Record Env := mkEnv {
  raises : nat -> Call -> option PyExc;
  responses : nat -> Call -> list (list CounterData);
  isoformat : nat -> string
}.

(** ** The effect monad

    A computation starts at interaction number [n] and returns its result,
    the events it produced and the next interaction number.  [Running] is
    the result of the polling loop when the observation ends before the
    loop does. *)
Inductive Res (A : Type) :=
| Ok (a : A)
| Raised (e : PyExc)
| Running.
Arguments Ok {A} a.
Arguments Raised {A} e.
Arguments Running {A}.

Record Out (A : Type) := mkOut {
  res : Res A;
  events : list Event;
  next : nat
}.
Arguments mkOut {A} res events next.
Arguments res {A} o.
Arguments events {A} o.
Arguments next {A} o.

Definition M (A : Type) := nat -> Out A.

Definition ret {A} (a : A) : M A := fun n => mkOut (Ok a) [] n.

Definition bind {A B} (m : M A) (f : A -> M B) : M B := fun n =>
  let o := m n in
  match res o with
  | Ok a => let o' := f a (next o) in
            mkOut (res o') (events o ++ events o') (next o')
  | Raised e => mkOut (Raised e) (events o) (next o)
  | Running => mkOut Running (events o) (next o)
  end.

Notation "x <- m ;; k" := (bind m (fun x => k))
  (at level 61, m at next level, right associativity).
Notation "' pat <- m ;; k" := (bind m (fun x => match x with pat => k end))
  (at level 61, pat pattern, m at next level, right associativity).
Notation "m ;; k" := (bind m (fun _ => k))
  (at level 61, right associativity).

(** [try: body except <classes>: handler] *)
Definition try_except {A} (body : M A) (catches : PyExc -> bool)
    (handler : PyExc -> M A) : M A := fun n =>
  let o := body n in
  match res o with
  | Raised e =>
      if catches e then
        let o' := handler e (next o) in
        mkOut (res o') (events o ++ events o') (next o')
      else o
  | _ => o
  end.

Definition print (s : string) : M unit := fun n => mkOut (Ok tt) [EvStdout s] n.
Definition print_stderr (s : string) : M unit := fun n => mkOut (Ok tt) [EvStderr s] n.
Definition printGrpcError (e : PyExc) : M unit := fun n => mkOut (Ok tt) [EvGrpcError e] n.

Section Controller.

Variable env : Env.

Definition call (c : Call) : M unit := fun n =>
  match raises env n c with
  | Some e => mkOut (Raised e) [EvCall c (Some e)] (S n)
  | None => mkOut (Ok tt) [EvCall c None] (S n)
  end.

(** [datetime.datetime.now().isoformat()] *)
Definition now_isoformat : M string := fun n => mkOut (Ok (isoformat env n)) [] (S n).

(** ** Rule writers *)

Definition writeL3ForwardRule (sw : Bmv2SwitchConnection)
    (dst_ip_addr dst_eth_addr : string) (port : Z) : M unit :=
  let table_entry := mkTableEntry "MyIngress.ipv4_lpm"
      [("hdr.ipv4.dstAddr", Lpm dst_ip_addr 32)]
      "MyIngress.ipv4_forward"
      [("dstAddr", PStr dst_eth_addr); ("port", PInt port)] in
  call (WriteTableEntry sw table_entry) ;;
  print ("Installed L3 forward rule on " ++ name sw ++ ": " ++ dst_ip_addr
         ++ " -> port " ++ str_int port).

Definition writeTunnelIngressRule (sw : Bmv2SwitchConnection)
    (dst_ip_addr : string) (tunnel_id : Z) : M unit :=
  let table_entry := mkTableEntry "MyIngress.ipv4_lpm"
      [("hdr.ipv4.dstAddr", Lpm dst_ip_addr 32)]
      "MyIngress.myTunnel_ingress"
      [("dst_id", PInt tunnel_id)] in
  call (WriteTableEntry sw table_entry) ;;
  print ("Installed ingress tunnel rule on " ++ name sw ++ ": " ++ dst_ip_addr
         ++ " -> tid " ++ str_int tunnel_id).

Definition writeTunnelTransitRule (sw : Bmv2SwitchConnection)
    (tunnel_id port : Z) : M unit :=
  let table_entry := mkTableEntry "MyIngress.myTunnel_exact"
      [("hdr.myTunnel.dst_id", Exact tunnel_id)]
      "MyIngress.myTunnel_forward"
      [("port", PInt port)] in
  call (WriteTableEntry sw table_entry) ;;
  print ("Installed transit tunnel rule on " ++ name sw ++ ": tid "
         ++ str_int tunnel_id ++ " -> port " ++ str_int port).

Definition writeTunnelEgressRule (sw : Bmv2SwitchConnection)
    (tunnel_id : Z) (dst_eth_addr : string) (port : Z) : M unit :=
  let table_entry := mkTableEntry "MyIngress.myTunnel_exact"
      [("hdr.myTunnel.dst_id", Exact tunnel_id)]
      "MyIngress.myTunnel_egress"
      [("dstAddr", PStr dst_eth_addr); ("port", PInt port)] in
  call (WriteTableEntry sw table_entry) ;;
  print ("Installed egress tunnel rule on " ++ name sw ++ ": tid "
         ++ str_int tunnel_id ++ " -> " ++ dst_eth_addr ++ " @ port "
         ++ str_int port).

(** ** Logging and counters *)

Definition log_to_file (filepath message : string) : M unit :=
  call (OpenAppendWrite filepath (message ++ nl)).

(** The two nested [for] loops of [read_counter]: the first entity of the
    first response that has one. *)
Fixpoint first_entity (rs : list (list CounterData)) : option CounterData :=
  match rs with
  | [] => None
  | [] :: rs' => first_entity rs'
  | (entity :: _) :: _ => Some entity
  end.

(** Iterating [sw.ReadCounters(...)]: the loops return at the first
    entity; otherwise the stream runs to its end, where it stops or
    raises. *)
Definition iter_ReadCounters (sw : Bmv2SwitchConnection)
    (counter_name : string) (index : Z) : M (option CounterData) := fun n =>
  let c := ReadCounters sw counter_name index in
  match first_entity (responses env n c) with
  | Some counter => mkOut (Ok (Some counter)) [EvCall c None] (S n)
  | None =>
      match raises env n c with
      | Some e => mkOut (Raised e) [EvCall c (Some e)] (S n)
      | None => mkOut (Ok None) [EvCall c None] (S n)
      end
  end.

Definition read_counter (sw : Bmv2SwitchConnection)
    (counter_name : string) (index : Z) : M (Z * Z) :=
  found <- try_except (iter_ReadCounters sw counter_name index)
             isinstance_Exception
             (fun e =>
                print_stderr ("Error reading counter " ++ counter_name ++ "["
                              ++ str_int index ++ "] from " ++ name sw ++ ": "
                              ++ exc_str e) ;;
                ret None) ;;
  match found with
  | Some counter => ret (packet_count counter, byte_count counter)
  | None => ret (0, 0)
  end.

Definition process_link_counters (sw_src sw_dst : Bmv2SwitchConnection)
    (tunnel_id : Z) (log_file : string) : M unit :=
  timestamp <- now_isoformat ;;
  let sw_src_name := name sw_src in
  let sw_dst_name := name sw_dst in
  print (nl ++ "----- " ++ sw_src_name ++ " -> " ++ sw_dst_name ++ " -----") ;;
  '(p_ing, b_ing) <- read_counter sw_src "MyIngress.ingressTunnelCounter" tunnel_id ;;
  let console_msg_ing := sw_src_name ++ " MyIngress.ingressTunnelCounter "
      ++ str_int tunnel_id ++ ": " ++ str_int p_ing ++ " packets ("
      ++ str_int b_ing ++ " bytes)" in
  let file_msg_ing := timestamp ++ " " ++ sw_src_name ++ "发送" ++ str_int p_ing
      ++ "个包, 计数器编号为: " ++ str_int tunnel_id in
  print console_msg_ing ;;
  log_to_file log_file file_msg_ing ;;
  '(p_eg, b_eg) <- read_counter sw_dst "MyIngress.egressTunnelCounter" tunnel_id ;;
  let console_msg_eg := sw_dst_name ++ " MyIngress.egressTunnelCounter "
      ++ str_int tunnel_id ++ ": " ++ str_int p_eg ++ " packets ("
      ++ str_int b_eg ++ " bytes)" in
  let file_msg_eg := timestamp ++ " " ++ sw_dst_name ++ "收到" ++ str_int p_eg
      ++ "个包, 计数器编号为: " ++ str_int tunnel_id in
  print console_msg_eg ;;
  log_to_file log_file file_msg_eg.

(** ** main *)

Definition s1s2_log := "S1S2.txt".
Definition s1s3_log := "S1S3.txt".
Definition s2s3_log := "S2S3.txt".

(** From the three connections to the last rule write. *)
Definition provision : M unit :=
  call (Connect s1) ;;
  call (Connect s2) ;;
  call (Connect s3) ;;
  call (MasterArbitrationUpdate s1) ;;
  call (MasterArbitrationUpdate s2) ;;
  call (MasterArbitrationUpdate s3) ;;
  print "Installing P4 Program on s1..." ;;
  call (SetForwardingPipelineConfig s1) ;;
  print "Installed P4 Program on s1" ;;
  print "Installing P4 Program on s2..." ;;
  call (SetForwardingPipelineConfig s2) ;;
  print "Installed P4 Program on s2" ;;
  print "Installing P4 Program on s3..." ;;
  call (SetForwardingPipelineConfig s3) ;;
  print "Installed P4 Program on s3" ;;
  print (nl ++ "--- Installing L3 Forwarding Rules (Local Delivery) ---") ;;
  writeL3ForwardRule s1 H1_IP H1_MAC S1_H1_PORT ;;
  writeL3ForwardRule s2 H2_IP H2_MAC S2_H2_PORT ;;
  writeL3ForwardRule s3 H3_IP H3_MAC S3_H3_PORT ;;
  print (nl ++ "--- Installing Tunnel Rules for s1 <-> s2 ---") ;;
  writeTunnelIngressRule s1 H2_IP TID_S1_S2 ;;
  writeTunnelTransitRule s1 TID_S1_S2 S1_S2_PORT ;;
  writeTunnelEgressRule s2 TID_S1_S2 H2_MAC S2_H2_PORT ;;
  writeTunnelIngressRule s2 H1_IP TID_S2_S1 ;;
  writeTunnelTransitRule s2 TID_S2_S1 S2_S1_PORT ;;
  writeTunnelEgressRule s1 TID_S2_S1 H1_MAC S1_H1_PORT ;;
  print (nl ++ "--- Installing Tunnel Rules for s1 <-> s3 ---") ;;
  writeTunnelIngressRule s1 H3_IP TID_S1_S3 ;;
  writeTunnelTransitRule s1 TID_S1_S3 S1_S3_PORT ;;
  writeTunnelEgressRule s3 TID_S1_S3 H3_MAC S3_H3_PORT ;;
  writeTunnelIngressRule s3 H1_IP TID_S3_S1 ;;
  writeTunnelTransitRule s3 TID_S3_S1 S3_S1_PORT ;;
  writeTunnelEgressRule s1 TID_S3_S1 H1_MAC S1_H1_PORT ;;
  print (nl ++ "--- Installing Tunnel Rules for s2 <-> s3 ---") ;;
  writeTunnelIngressRule s2 H3_IP TID_S2_S3 ;;
  writeTunnelTransitRule s2 TID_S2_S3 S2_S3_PORT ;;
  writeTunnelEgressRule s3 TID_S2_S3 H3_MAC S3_H3_PORT ;;
  writeTunnelIngressRule s3 H2_IP TID_S3_S2 ;;
  writeTunnelTransitRule s3 TID_S3_S2 S3_S2_PORT ;;
  writeTunnelEgressRule s2 TID_S3_S2 H2_MAC S2_H2_PORT.

(** One iteration of [while True]. *)
Definition poll_cycle : M unit :=
  call (Sleep 2) ;;
  t <- now_isoformat ;;
  print (nl ++ "----- Reading tunnel counters (" ++ t ++ ") -----") ;;
  process_link_counters s1 s2 TID_S1_S2 s1s2_log ;;
  process_link_counters s2 s1 TID_S2_S1 s1s2_log ;;
  process_link_counters s1 s3 TID_S1_S3 s1s3_log ;;
  process_link_counters s3 s1 TID_S3_S1 s1s3_log ;;
  process_link_counters s2 s3 TID_S2_S3 s2s3_log ;;
  process_link_counters s3 s2 TID_S3_S2 s2s3_log.

(** [while True]: the loop has no exit of its own; [cycles] bounds how
    many iterations are observed. *)
Fixpoint poll_loop (cycles : nat) : M unit :=
  match cycles with
  | O => fun n => mkOut Running [] n
  | S k => poll_cycle ;; poll_loop k
  end.

Definition catches_main (e : PyExc) : bool :=
  isinstance_KeyboardInterrupt e || isinstance_RpcError e.

Definition handler_main (e : PyExc) : M unit :=
  if isinstance_KeyboardInterrupt e then print " Shutting down."
  else printGrpcError e.

Definition main (cycles : nat) : M unit :=
  call P4InfoHelper ;;
  call (OpenTruncate s1s2_log) ;;
  call (OpenTruncate s1s3_log) ;;
  call (OpenTruncate s2s3_log) ;;
  try_except (provision ;; poll_loop cycles) catches_main handler_main ;;
  call ShutdownAllSwitchConnections.

End Controller.

(** An environment in which nothing raises and every counter reads as
    one entry of 7 packets and 700 bytes. *)
Definition quiet_env : Env :=
  mkEnv (fun _ _ => None)
        (fun _ _ => [[mkCounterData 7 700]])
        (fun _ => "2024-05-01T12:00:00.000000").

Open Scope list_scope.

(** ** Directed tunnel paths and the per-link log files

    The six calls of [process_link_counters] in the loop are one per
    directed path; the log file is the one of the unordered link. *)

Definition tunnel_paths : list (Bmv2SwitchConnection * Bmv2SwitchConnection * Z) :=
  [ (s1, s2, TID_S1_S2); (s2, s1, TID_S2_S1);
    (s1, s3, TID_S1_S3); (s3, s1, TID_S3_S1);
    (s2, s3, TID_S2_S3); (s3, s2, TID_S3_S2) ].

Definition link_log (a b : Bmv2SwitchConnection) : string :=
  if (same_switch a s1 && same_switch b s2) || (same_switch a s2 && same_switch b s1)
  then s1s2_log
  else if (same_switch a s1 && same_switch b s3) || (same_switch a s3 && same_switch b s1)
  then s1s3_log
  else s2s3_log.

(** The two f-strings [file_msg_ing] and [file_msg_eg]. *)
Definition sent_line (timestamp sw_name : string) (p tunnel_id : Z) : string :=
  (timestamp ++ " " ++ sw_name ++ "发送" ++ str_int p
   ++ "个包, 计数器编号为: " ++ str_int tunnel_id)%string.

Definition received_line (timestamp sw_name : string) (p tunnel_id : Z) : string :=
  (timestamp ++ " " ++ sw_name ++ "收到" ++ str_int p
   ++ "个包, 计数器编号为: " ++ str_int tunnel_id)%string.

(** What the loop appends to which file. *)
Inductive log_write (env : Env) : string -> string -> Prop :=
| lw_sent src dst tid k p :
    In (src, dst, tid) tunnel_paths ->
    log_write env (link_log src dst)
      (sent_line (isoformat env k) (name src) p tid ++ nl)%string
| lw_received src dst tid k p :
    In (src, dst, tid) tunnel_paths ->
    log_write env (link_log src dst)
      (received_line (isoformat env k) (name dst) p tid ++ nl)%string.

(** The events of the polling loop, and of leaving [main]. *)
Definition poll_event (env : Env) (ev : Event) : Prop :=
  match ev with
  | EvCall (Sleep _) _ | EvCall (ReadCounters _ _ _) _
  | EvStdout _ | EvStderr _ => True
  | EvCall (OpenAppendWrite path data) _ => log_write env path data
  | _ => False
  end.

Definition exit_event (ev : Event) : Prop :=
  match ev with
  | EvCall ShutdownAllSwitchConnections _ | EvStdout _ | EvGrpcError _ => True
  | _ => False
  end.

(** ** The straight-line part of [main], as a script of events

    [preamble_events] and [provision_events] are what the code before the
    [try] and the code from the connections to the last rule write
    produce when nothing raises. *)

Definition preamble (env : Env) : M unit :=
  call env P4InfoHelper ;;
  call env (OpenTruncate s1s2_log) ;;
  call env (OpenTruncate s1s3_log) ;;
  call env (OpenTruncate s2s3_log).

Definition guarded (env : Env) (cycles : nat) : M unit :=
  try_except (provision env ;; poll_loop env cycles) catches_main handler_main.

Definition preamble_events : list Event :=
  Eval cbv in events (preamble quiet_env 0%nat).

Definition provision_events : list Event :=
  Eval cbv in events (provision quiet_env 0%nat).

Definition straight_events : list Event := preamble_events ++ provision_events.

(** [follows script evs]: [evs] is the script cut short: a prefix of it,
    possibly ended by the next call of the script raising. *)
Fixpoint follows (script evs : list Event) : Prop :=
  match evs with
  | [] => True
  | ev :: evs' =>
      match script with
      | [] => False
      | ev' :: script' =>
          (ev = ev' /\ follows script' evs') \/
          (exists c e, ev' = EvCall c None /\ ev = EvCall c (Some e) /\ evs' = [])
      end
  end.

(** Two events are the same step when they are equal or the same call
    with another outcome. *)
Definition same_step (ev' ev : Event) : Prop :=
  ev = ev' \/ exists c o o', ev' = EvCall c o' /\ ev = EvCall c o.

Definition runs_script {A} (m : M A) (script : list Event) : Prop :=
  forall n, follows script (events (m n)) /\
            match res (m n) with
            | Ok _ => events (m n) = script
            | Raised _ => True
            | Running => False
            end.

(** Computations all of whose events satisfy a predicate. *)
Definition emits {A} (P : Event -> Prop) (m : M A) : Prop :=
  forall n, Forall P (events (m n)).

(** ** Installed rules *)

(** The rule entries written successfully, with their device, in order. *)
Fixpoint written_rules (tr : list Event) : list (Bmv2SwitchConnection * TableEntry) :=
  match tr with
  | [] => []
  | EvCall (WriteTableEntry sw entry) None :: tr' => (sw, entry) :: written_rules tr'
  | _ :: tr' => written_rules tr'
  end.

(** The rules [main] installs when provisioning runs to its end. *)
Definition main_rules : list (Bmv2SwitchConnection * TableEntry) :=
  Eval cbv in written_rules provision_events.

Definition is_sleep (ev : Event) : Prop :=
  match ev with EvCall (Sleep _) _ => True | _ => False end.

Definition is_write (ev : Event) : Prop :=
  match ev with EvCall (WriteTableEntry _ _) _ => True | _ => False end.

(** The four kinds of rule, told apart by the action. *)
Inductive RuleKind := LocalDelivery | TunnelIngress | TunnelTransit | TunnelEgress.

Definition RuleKind_eqb (a b : RuleKind) : bool :=
  match a, b with
  | LocalDelivery, LocalDelivery | TunnelIngress, TunnelIngress
  | TunnelTransit, TunnelTransit | TunnelEgress, TunnelEgress => true
  | _, _ => false
  end.

Definition rule_kind (e : TableEntry) : option RuleKind :=
  if String.eqb (action_name e) "MyIngress.ipv4_forward" then Some LocalDelivery
  else if String.eqb (action_name e) "MyIngress.myTunnel_ingress" then Some TunnelIngress
  else if String.eqb (action_name e) "MyIngress.myTunnel_forward" then Some TunnelTransit
  else if String.eqb (action_name e) "MyIngress.myTunnel_egress" then Some TunnelEgress
  else None.

(** The tunnel identifier of a tunnel rule: the [dst_id] an ingress rule
    sets, the [hdr.myTunnel.dst_id] a transit or egress rule matches. *)
Definition rule_tunnel_id (e : TableEntry) : option Z :=
  match match_fields e, action_params e with
  | [(_, Exact tid)], _ => Some tid
  | [(_, Lpm _ _)], [(_, PInt tid)] => Some tid
  | _, _ => None
  end.

Definition rule_dst_ip (e : TableEntry) : option string :=
  match match_fields e with
  | [(_, Lpm ip _)] => Some ip
  | _ => None
  end.

Definition is_kind (k : RuleKind) (r : Bmv2SwitchConnection * TableEntry) : bool :=
  match rule_kind (snd r) with
  | Some k' => RuleKind_eqb k k'
  | None => false
  end.

Definition on_link (link : Z * Z) (r : Bmv2SwitchConnection * TableEntry) : bool :=
  match rule_tunnel_id (snd r) with
  | Some t => (t =? fst link) || (t =? snd link)
  | None => false
  end.

Definition count_kind (k : RuleKind) (rules : list (Bmv2SwitchConnection * TableEntry)) : nat :=
  List.length (filter (is_kind k) rules).

Definition count_kind_on_link (k : RuleKind) (link : Z * Z)
    (rules : list (Bmv2SwitchConnection * TableEntry)) : nat :=
  List.length (filter (fun r => is_kind k r && on_link link r) rules).

(** The two tunnel identifiers of each unordered link. *)
Definition link_tids : list (Z * Z) :=
  [ (TID_S1_S2, TID_S2_S1); (TID_S1_S3, TID_S3_S1); (TID_S2_S3, TID_S3_S2) ].

Definition tunnel_ids_used (rules : list (Bmv2SwitchConnection * TableEntry)) : list Z :=
  nodup Z.eq_dec
    (flat_map (fun r => match rule_tunnel_id (snd r) with
                        | Some t => [t]
                        | None => []
                        end) rules).

(** Local Delivery rules as (device, destination address, link-layer
    address and port parameters). *)
Definition local_deliveries (rules : list (Bmv2SwitchConnection * TableEntry))
  : list (string * option string * list (string * ParamValue)) :=
  map (fun r => (name (fst r), rule_dst_ip (snd r), action_params (snd r)))
      (filter (is_kind LocalDelivery) rules).

(** The match key of a rule within its device: the table and the match
    fields. *)
Definition rule_key (r : Bmv2SwitchConnection * TableEntry)
  : string * string * list (string * MatchValue) :=
  (name (fst r), table_name (snd r), match_fields (snd r)).

Definition lpm_keys (dev : string) (rules : list (Bmv2SwitchConnection * TableEntry))
  : list string :=
  flat_map (fun r =>
    if String.eqb (name (fst r)) dev && String.eqb (table_name (snd r)) "MyIngress.ipv4_lpm"
    then match match_fields (snd r) with
         | [(_, Lpm ip _)] => [ip]
         | _ => []
         end
    else []) rules.

Definition tunnel_keys (dev : string) (rules : list (Bmv2SwitchConnection * TableEntry))
  : list Z :=
  flat_map (fun r =>
    if String.eqb (name (fst r)) dev && String.eqb (table_name (snd r)) "MyIngress.myTunnel_exact"
    then match match_fields (snd r) with
         | [(_, Exact tid)] => [tid]
         | _ => []
         end
    else []) rules.

(** ** Log files *)

Definition is_truncate (ev : Event) : Prop :=
  match ev with EvCall (OpenTruncate _) _ => True | _ => False end.


(** The contents of the files after a run: [open(path, 'w').close()]
    empties the file, [open(path, 'a')] followed by [write] adds the data
    at its end; a call that raised is taken to have left the file as it
    was. *)
Definition file_step (fs : string -> string) (ev : Event) : string -> string :=
  match ev with
  | EvCall (OpenTruncate path) None =>
      fun p => if String.eqb p path then ""%string else fs p
  | EvCall (OpenAppendWrite path data) None =>
      fun p => if String.eqb p path then (fs p ++ data)%string else fs p
  | _ => fs
  end.

Definition files_after (tr : list Event) (fs : string -> string) : string -> string :=
  fold_left file_step tr fs.

(** [contains sub s]: [sub] occurs in [s]. *)
Fixpoint contains (sub s : string) : bool :=
  if prefix sub s then true
  else match s with
       | EmptyString => false
       | String _ s' => contains sub s'
       end.

(** The line format as the interface description words it:
    [<timestamp> <device> sent|received <N> packets, counter id: <tunnel-id>]. *)
Definition english_line_form (line : string) : Prop :=
  exists ts dev verb count tid : string,
    (verb = "sent" \/ verb = "received")%string /\
    line = (ts ++ " " ++ dev ++ " " ++ verb ++ " " ++ count
            ++ " packets, counter id: " ++ tid)%string.

(** ** One polling cycle, read by read *)

Definition ingress_counter : string := "MyIngress.ingressTunnelCounter".
Definition egress_counter : string := "MyIngress.egressTunnelCounter".

(** What [read_counter] returns for the read made as interaction [k],
    when it returns: the counts of the first entity, or zeros. *)
Definition snapshot (env : Env) (k : nat) (c : Call) : Z * Z :=
  match first_entity (responses env k c) with
  | Some counter => (packet_count counter, byte_count counter)
  | None => (0, 0)
  end.

(** The exception that ends a read that found no entity. *)
Definition read_failure (env : Env) (k : nat) (c : Call) : option PyExc :=
  match first_entity (responses env k c) with
  | Some _ => None
  | None => raises env k c
  end.

Definition error_report (counter_name : string) (index : Z)
    (sw : Bmv2SwitchConnection) (e : PyExc) : string :=
  ("Error reading counter " ++ counter_name ++ "[" ++ str_int index
   ++ "] from " ++ name sw ++ ": " ++ exc_str e)%string.

Definition read_events (env : Env) (k : nat) (sw : Bmv2SwitchConnection)
    (counter_name : string) (index : Z) : list Event :=
  let c := ReadCounters sw counter_name index in
  match read_failure env k c with
  | None => [EvCall c None]
  | Some e =>
      EvCall c (Some e) ::
      if isinstance_Exception e then [EvStderr (error_report counter_name index sw e)]
      else []
  end.

Definition console_line (sw_name counter_name : string) (tunnel_id : Z) (v : Z * Z) : string :=
  (sw_name ++ " " ++ counter_name ++ " " ++ str_int tunnel_id ++ ": "
   ++ str_int (fst v) ++ " packets (" ++ str_int (snd v) ++ " bytes)")%string.

(** A Link Observation: the pair of counter snapshots of one directed
    path, taken under one timestamp. *)
Record LinkObservation := mkObs {
  obs_src : Bmv2SwitchConnection;
  obs_dst : Bmv2SwitchConnection;
  obs_tunnel_id : Z;
  obs_timestamp : string;
  obs_sent : Z * Z;
  obs_received : Z * Z
}.

Definition obs_path (ob : LinkObservation) : Bmv2SwitchConnection * Bmv2SwitchConnection * Z :=
  (obs_src ob, obs_dst ob, obs_tunnel_id ob).

(** The observation of the path polled from interaction [k] on. *)
Definition observe (env : Env) (k : nat)
    (path : Bmv2SwitchConnection * Bmv2SwitchConnection * Z) : LinkObservation :=
  let '(src, dst, tid) := path in
  mkObs src dst tid (isoformat env k)
        (snapshot env (k + 1) (ReadCounters src ingress_counter tid))
        (snapshot env (k + 3) (ReadCounters dst egress_counter tid)).

(** The record of an observation in its log: the sent line and the
    received line. *)
Definition obs_lines (ob : LinkObservation) : list (string * string) :=
  let file := link_log (obs_src ob) (obs_dst ob) in
  [ (file, (sent_line (obs_timestamp ob) (name (obs_src ob))
                      (fst (obs_sent ob)) (obs_tunnel_id ob) ++ nl)%string);
    (file, (received_line (obs_timestamp ob) (name (obs_dst ob))
                          (fst (obs_received ob)) (obs_tunnel_id ob) ++ nl)%string) ].

(** The events of [process_link_counters] started at interaction [k],
    when it returns. *)
Definition observation_events (env : Env) (k : nat)
    (path : Bmv2SwitchConnection * Bmv2SwitchConnection * Z) : list Event :=
  let ob := observe env k path in
  let '(src, dst, tid) := path in
  [EvStdout (nl ++ "----- " ++ name src ++ " -> " ++ name dst ++ " -----")%string]
  ++ read_events env (k + 1) src ingress_counter tid
  ++ [EvStdout (console_line (name src) ingress_counter tid (obs_sent ob));
      EvCall (OpenAppendWrite (link_log src dst)
                (sent_line (obs_timestamp ob) (name src) (fst (obs_sent ob)) tid ++ nl)%string)
             None]
  ++ read_events env (k + 3) dst egress_counter tid
  ++ [EvStdout (console_line (name dst) egress_counter tid (obs_received ob));
      EvCall (OpenAppendWrite (link_log src dst)
                (received_line (obs_timestamp ob) (name dst) (fst (obs_received ob)) tid ++ nl)%string)
             None].

(** The interaction at which each path's polling starts, in a cycle
    started at [n]: [sleep] and the clock come first, then five
    interactions per path. *)
Definition cycle_starts (n : nat) : list (nat * (Bmv2SwitchConnection * Bmv2SwitchConnection * Z)) :=
  combine (map (fun i => n + 2 + 5 * i)%nat (seq 0 6)) tunnel_paths.

Definition cycle_observations (env : Env) (n : nat) : list LinkObservation :=
  map (fun kp => observe env (fst kp) (snd kp)) (cycle_starts n).

Definition cycle_events (env : Env) (n : nat) : list Event :=
  EvCall (Sleep 2) None
  :: EvStdout (nl ++ "----- Reading tunnel counters (" ++ isoformat env (n + 1) ++ ") -----")%string
  :: flat_map (fun kp => observation_events env (fst kp) (snd kp)) (cycle_starts n).

(** The counter reads of a cycle, with the interaction each is made at. *)
Definition cycle_reads (n : nat) : list (nat * Bmv2SwitchConnection * string * Z) :=
  flat_map (fun kp =>
    let '(k, (src, dst, tid)) := kp in
    [ ((k + 1)%nat, src, ingress_counter, tid);
      ((k + 3)%nat, dst, egress_counter, tid) ]) (cycle_starts n).


(** What a trace appended to which file, which counters it read, and
    what it printed on stderr. *)
Definition appended (tr : list Event) : list (string * string) :=
  flat_map (fun ev => match ev with
                      | EvCall (OpenAppendWrite path data) None => [(path, data)]
                      | _ => []
                      end) tr.


Definition stderr_lines (tr : list Event) : list string :=
  flat_map (fun ev => match ev with
                      | EvStderr s => [s]
                      | _ => []
                      end) tr.

(** The reports a cycle started at [n] owes: one per read that raised. *)
Definition cycle_reports (env : Env) (n : nat) : list string :=
  flat_map (fun r =>
    let '(k, sw, cn, idx) := r in
    match read_failure env k (ReadCounters sw cn idx) with
    | Some e => [error_report cn idx sw e]
    | None => []
    end) (cycle_reads n).

Definition prepend {A} (evs : list Event) (o : Out A) : Out A :=
  mkOut (res o) (evs ++ events o) (next o).

(** ** Environments used as examples *)

(** Every counter read returns a response without entities. *)
Definition empty_env : Env :=
  mkEnv (fun _ _ => None) (fun _ _ => [[]]) (fun _ => "2024-05-01T12:00:00.000000"%string).

(** Every counter read returns one entity with zero counts. *)
Definition zero_env : Env :=
  mkEnv (fun _ _ => None) (fun _ _ => [[mkCounterData 0 0]])
        (fun _ => "2024-05-01T12:00:00.000000"%string).

(** The operator interrupts while a counter read is blocked. *)
Definition interrupted_read_env : Env :=
  mkEnv (fun _ c => match c with
                    | ReadCounters _ _ _ => Some KeyboardInterrupt
                    | _ => None
                    end)
        (fun _ _ => []) (fun _ => "2024-05-01T12:00:00.000000"%string).

(** Every counter read fails with a gRPC error. *)
Definition unreachable_env : Env :=
  mkEnv (fun _ c => match c with
                    | ReadCounters _ _ _ => Some (RpcError "UNAVAILABLE")
                    | _ => None
                    end)
        (fun _ _ => []) (fun _ => "2024-05-01T12:00:00.000000"%string).

(** Appending to a log file fails with an [OSError]. *)
Definition log_unwritable_env : Env :=
  mkEnv (fun _ c => match c with
                    | OpenAppendWrite _ _ => Some (OtherException "OSError")
                    | _ => None
                    end)
        (fun _ _ => [[mkCounterData 7 700]])
        (fun _ => "2024-05-01T12:00:00.000000"%string).

Definition is_shutdown (ev : Event) : Prop :=
  match ev with EvCall ShutdownAllSwitchConnections _ => True | _ => False end.

(** ** Leaving [main], and what stops it *)

(** What the handler of [main] prints for the exception it caught. *)
Definition handler_event (e : PyExc) : Event :=
  if isinstance_KeyboardInterrupt e then EvStdout " Shutting down."
  else EvGrpcError e.

(** The calls [main] makes outside its [try] block. *)
Definition outside_try (c : Call) : Prop :=
  match c with
  | P4InfoHelper | OpenTruncate _ | ShutdownAllSwitchConnections => True
  | _ => False
  end.

Definition is_read (c : Call) : Prop :=
  match c with ReadCounters _ _ _ => True | _ => False end.

(** The calls made before the loop, and the calls of the loop. *)
Definition provisioning_call (c : Call) : Prop :=
  match c with
  | P4InfoHelper | OpenTruncate _ | Connect _ | MasterArbitrationUpdate _
  | SetForwardingPipelineConfig _ | WriteTableEntry _ _ => True
  | _ => False
  end.

Definition polling_call (c : Call) : Prop :=
  match c with
  | Sleep _ | ReadCounters _ _ _ | OpenAppendWrite _ _ => True
  | _ => False
  end.

Definition is_polling (ev : Event) : Prop :=
  match ev with EvCall c _ => polling_call c | _ => False end.

(** [raise_origin env Q m]: when [m] raises, the exception is the one
    raised by the last call [m] made, and call and exception satisfy [Q]. *)
Definition raise_origin (env : Env) (Q : Call -> PyExc -> Prop) {A} (m : M A) : Prop :=
  forall n e, res (m n) = Raised e ->
    exists tr c k, events (m n) = tr ++ [EvCall c (Some e)] /\
                   raises env k c = Some e /\ Q c e.

(** Inside the [try] block: the call is not one of those outside it, and
    a counter read only lets through what is not an [Exception]. *)
Definition in_try (c : Call) (e : PyExc) : Prop :=
  ~ outside_try c /\ (is_read c -> isinstance_Exception e = false).

(** [raise_stops m]: a call of [m] that raised (other than a counter
    read raising an [Exception]) is the last thing [m] did, and [m] raises
    that exception. *)
Definition raise_stops {A} (m : M A) : Prop :=
  forall n i c e,
    nth_error (events (m n)) i = Some (EvCall c (Some e)) ->
    (is_read c -> isinstance_Exception e = false) ->
    res (m n) = Raised e /\ S i = List.length (events (m n)).

(** [steps m t]: [m] returns after [t] interactions. *)
Definition steps (m : M unit) (t : nat) : Prop :=
  forall n, res (m n) = Ok tt /\ next (m n) = (n + t)%nat.

(** The events and observations of [cycles] complete polling cycles from
    interaction [n] on: each cycle takes 32 interactions. *)
Fixpoint loop_events (env : Env) (cycles n : nat) : list Event :=
  match cycles with
  | O => []
  | S k => cycle_events env n ++ loop_events env k (n + 32)
  end.

Fixpoint loop_observations (env : Env) (cycles n : nat) : list LinkObservation :=
  match cycles with
  | O => []
  | S k => cycle_observations env n ++ loop_observations env k (n + 32)
  end.

(** The data appended to file [f], in order, as one string. *)
Definition lines_for (f : string) (l : list (string * string)) : string :=
  fold_right append ""%string
    (map snd (filter (fun x => String.eqb f (fst x)) l)).

(** ** More example environments *)

(** The operator interrupts during [sleep]. *)
Definition interrupted_sleep_env : Env :=
  mkEnv (fun _ c => match c with
                    | Sleep _ => Some KeyboardInterrupt
                    | _ => None
                    end)
        (fun _ _ => [[mkCounterData 7 700]])
        (fun _ => "2024-05-01T12:00:00.000000"%string).

(** The pipeline push on s2 fails with a gRPC error. *)
Definition push_fails_env : Env :=
  mkEnv (fun _ c => match c with
                    | SetForwardingPipelineConfig sw =>
                        if same_switch sw s2 then Some (RpcError "UNKNOWN") else None
                    | _ => None
                    end)
        (fun _ _ => [[mkCounterData 7 700]])
        (fun _ => "2024-05-01T12:00:00.000000"%string).

(** The operator interrupts while an egress counter is read. *)
Definition interrupted_egress_env : Env :=
  mkEnv (fun _ c => match c with
                    | ReadCounters _ cn _ =>
                        if String.eqb cn egress_counter then Some KeyboardInterrupt else None
                    | _ => None
                    end)
        (fun _ _ => []) (fun _ => "2024-05-01T12:00:00.000000"%string).

(** A counter read whose stream yields an empty response, then a
    response with two entities, then another response, and would raise a
    gRPC error at its end. *)
Definition late_error_env : Env :=
  mkEnv (fun _ c => match c with
                    | ReadCounters _ _ _ => Some (RpcError "CANCELLED")
                    | _ => None
                    end)
        (fun _ _ => [[]; [mkCounterData 5 500; mkCounterData 6 600]; [mkCounterData 9 900]])
        (fun _ => "2024-05-01T12:00:00.000000"%string).

(** * Proofs *)

(** ** Laws of the monad *)

Lemma events_bind {A B} (m : M A) (f : A -> M B) n :
  events (bind m f n) =
  events (m n) ++ match res (m n) with
                  | Ok a => events (f a (next (m n)))
                  | _ => []
                  end.
Proof.
  unfold bind. destruct (res (m n)); cbn; auto using app_nil_r.
Qed.

Lemma res_bind {A B} (m : M A) (f : A -> M B) n :
  res (bind m f n) =
  match res (m n) with
  | Ok a => res (f a (next (m n)))
  | Raised e => Raised e
  | Running => Running
  end.
Proof.
  unfold bind. destruct (res (m n)); reflexivity.
Qed.

Lemma next_bind {A B} (m : M A) (f : A -> M B) n :
  next (bind m f n) =
  match res (m n) with
  | Ok a => next (f a (next (m n)))
  | _ => next (m n)
  end.
Proof.
  unfold bind. destruct (res (m n)); reflexivity.
Qed.

Lemma events_try_except {A} (body : M A) catches handler n :
  events (try_except body catches handler n) =
  events (body n) ++ match res (body n) with
                     | Raised e => if catches e then events (handler e (next (body n))) else []
                     | _ => []
                     end.
Proof.
  unfold try_except. destruct (res (body n)) as [a|e|]; cbn; auto using app_nil_r.
  destruct (catches e); cbn; auto using app_nil_r.
Qed.

Lemma res_try_except {A} (body : M A) catches handler n :
  res (try_except body catches handler n) =
  match res (body n) with
  | Raised e => if catches e then res (handler e (next (body n))) else Raised e
  | r => r
  end.
Proof.
  unfold try_except. destruct (res (body n)) as [a|e|] eqn:E; cbn; auto.
  destruct (catches e); cbn; auto.
Qed.

Lemma bind_assoc {A B C} (m : M A) (f : A -> M B) (g : B -> M C) n :
  bind (bind m f) g n = bind m (fun a => bind (f a) g) n.
Proof.
  unfold bind. destruct (res (m n)) as [a|e|]; cbn; auto.
  destruct (res (f a (next (m n)))); cbn; auto.
  now rewrite app_assoc.
Qed.

Lemma bind_ext {A B} (m : M A) (f g : A -> M B) n :
  (forall a k, f a k = g a k) -> bind m f n = bind m g n.
Proof.
  intro H. unfold bind. destruct (res (m n)); auto. now rewrite H.
Qed.

(** ** Event predicates through the combinators *)

Lemma emits_ret {A} P (a : A) : emits P (ret a).
Proof. intro n. constructor. Qed.

Lemma emits_bind {A B} P (m : M A) (f : A -> M B) :
  emits P m -> (forall a, emits P (f a)) -> emits P (bind m f).
Proof.
  intros Hm Hf n. rewrite events_bind. apply Forall_app. split; [apply Hm|].
  destruct (res (m n)); [apply Hf | constructor | constructor].
Qed.

Lemma emits_bind_now {B} P env (f : string -> M B) :
  (forall k, emits P (f (isoformat env k))) -> emits P (bind (now_isoformat env) f).
Proof. intros H n. rewrite events_bind. cbn. apply H. Qed.

Lemma emits_try_except {A} P (body : M A) catches handler :
  emits P body -> (forall e, emits P (handler e)) ->
  emits P (try_except body catches handler).
Proof.
  intros Hb Hh n. rewrite events_try_except. apply Forall_app. split; [apply Hb|].
  destruct (res (body n)) as [a|e|]; try constructor.
  destruct (catches e); [apply Hh | constructor].
Qed.

Lemma emits_print P s : P (EvStdout s) -> emits P (print s).
Proof. intros H n. cbn. auto. Qed.

Lemma emits_print_stderr P s : P (EvStderr s) -> emits P (print_stderr s).
Proof. intros H n. cbn. auto. Qed.

Lemma emits_call P env c : (forall o, P (EvCall c o)) -> emits P (call env c).
Proof.
  intros H n. unfold call. destruct (raises env n c); cbn; auto.
Qed.

Lemma emits_iter_ReadCounters P env sw cn idx :
  (forall o, P (EvCall (ReadCounters sw cn idx) o)) ->
  emits P (iter_ReadCounters env sw cn idx).
Proof.
  intros H n. unfold iter_ReadCounters.
  destruct (first_entity _); [|destruct (raises _ _ _)]; cbn; auto.
Qed.

Lemma emits_read_counter P env sw cn idx :
  (forall o, P (EvCall (ReadCounters sw cn idx) o)) ->
  (forall s, P (EvStderr s)) ->
  emits P (read_counter env sw cn idx).
Proof.
  intros Hc He. unfold read_counter.
  apply emits_bind.
  - apply emits_try_except; [now apply emits_iter_ReadCounters|].
    intro e. apply emits_bind; [now apply emits_print_stderr|].
    intros _. apply emits_ret.
  - intros [d|]; apply emits_ret.
Qed.

Lemma emits_process_link_counters P env src dst tid file :
  (forall sw cn idx o, P (EvCall (ReadCounters sw cn idx) o)) ->
  (forall s, P (EvStderr s)) ->
  (forall s, P (EvStdout s)) ->
  (forall k p o, P (EvCall (OpenAppendWrite file
       (sent_line (isoformat env k) (name src) p tid ++ nl)%string) o)) ->
  (forall k p o, P (EvCall (OpenAppendWrite file
       (received_line (isoformat env k) (name dst) p tid ++ nl)%string) o)) ->
  emits P (process_link_counters env src dst tid file).
Proof.
  intros Hr He Ho Hs Hv. unfold process_link_counters, log_to_file.
  apply emits_bind_now. intro k.
  apply emits_bind; [apply emits_print; apply Ho | intros _].
  apply emits_bind; [apply emits_read_counter; [intro; apply Hr | apply He] |].
  intros [p_ing b_ing].
  apply emits_bind; [apply emits_print; apply Ho | intros _].
  apply emits_bind; [apply emits_call; intro; apply Hs | intros _].
  apply emits_bind; [apply emits_read_counter; [intro; apply Hr | apply He] |].
  intros [p_eg b_eg].
  apply emits_bind; [apply emits_print; apply Ho | intros _].
  apply emits_call; intro; apply Hv.
Qed.

(** ** The polling loop *)

Lemma plc_emits_poll env src dst tid :
  In (src, dst, tid) tunnel_paths ->
  emits (poll_event env) (process_link_counters env src dst tid (link_log src dst)).
Proof.
  intro H. apply emits_process_link_counters; intros; cbn; auto.
  - now apply lw_sent.
  - now apply lw_received.
Qed.

Lemma poll_cycle_emits env : emits (poll_event env) (poll_cycle env).
Proof.
  unfold poll_cycle.
  repeat first
    [ apply emits_print; exact I
    | apply emits_call; intro; exact I
    | match goal with
      | |- emits _ (process_link_counters _ ?a ?b ?t _) =>
          apply (plc_emits_poll env a b t);
          cbn; repeat first [left; reflexivity | right]
      end
    | apply emits_bind_now; intros ?
    | apply emits_bind; [| intros ?] ].
Qed.

Lemma poll_loop_emits env cycles : emits (poll_event env) (poll_loop env cycles).
Proof.
  induction cycles as [|k IH]; cbn [poll_loop].
  - intro n. constructor.
  - apply emits_bind; [apply poll_cycle_emits | intros _; exact IH].
Qed.

(** The loop never falls through: it raises or is still running. *)
Lemma poll_loop_no_exit env cycles n a : res (poll_loop env cycles n) <> Ok a.
Proof.
  revert n. induction cycles as [|k IH]; intro n; cbn [poll_loop].
  - discriminate.
  - rewrite res_bind. destruct (res (poll_cycle env n)); try discriminate. apply IH.
Qed.

(** ** Straight-line code follows its script *)

Lemma follows_refl s : follows s s.
Proof. induction s; cbn; auto. Qed.

Lemma follows_app_l s1 s2 evs : follows s1 evs -> follows (s1 ++ s2) evs.
Proof.
  revert evs. induction s1 as [|ev' s1 IH]; intros [|ev evs]; cbn; auto.
  - intros _. now destruct s2.
  - intros [].
  - intros [[-> H]|H]; auto.
Qed.

Lemma follows_app_r s1 s2 evs : follows s2 evs -> follows (s1 ++ s2) (s1 ++ evs).
Proof. induction s1; cbn; auto. Qed.

Lemma follows_nth script evs i ev :
  follows script evs -> nth_error evs i = Some ev ->
  exists ev', nth_error script i = Some ev' /\ same_step ev' ev.
Proof.
  revert evs i. induction script as [|ev' script IH]; intros [|ev0 evs] i F H.
  - destruct i; discriminate.
  - destruct F.
  - destruct i; discriminate.
  - cbn in F. destruct F as [[-> F]|(c & e & -> & -> & ->)].
    + destruct i as [|i]; cbn in *.
      * inversion H; subst. exists ev; split; auto. now left.
      * eauto.
    + destruct i as [|[|i]]; cbn in *; try discriminate.
      inversion H; subst. eexists; split; eauto. right. eauto.
Qed.

(** Before its last event, a cut-short script agrees with the script. *)
Lemma follows_nth_before script evs i j ev :
  follows script evs -> (j < i)%nat -> nth_error evs i = Some ev ->
  nth_error evs j = nth_error script j.
Proof.
  revert evs i j. induction script as [|ev' script IH]; intros [|ev0 evs] i j F L H.
  - destruct i; discriminate.
  - destruct F.
  - destruct i; discriminate.
  - cbn in F. destruct F as [[-> F]|(c & e & -> & -> & ->)].
    + destruct j as [|j]; cbn; auto.
      destruct i as [|i]; [lia|]. cbn in H. apply (IH evs i j F); [lia | exact H].
    + destruct i as [|[|i]]; cbn in H; try discriminate; lia.
Qed.

Lemma runs_script_bind {A B} (m : M A) (f : A -> M B) sa sb :
  runs_script m sa -> (forall a, runs_script (f a) sb) ->
  runs_script (bind m f) (sa ++ sb).
Proof.
  intros Hm Hf n. rewrite events_bind, res_bind.
  destruct (Hm n) as [Fm Rm]. destruct (res (m n)) as [a|e|]; [|rewrite app_nil_r|tauto].
  - destruct (Hf a (next (m n))) as [Ff Rf]. rewrite Rm. split.
    + now apply follows_app_r.
    + destruct (res (f a (next (m n)))); auto. now rewrite Rf.
  - split; auto. now apply follows_app_l.
Qed.

Lemma runs_script_call env c : runs_script (call env c) [EvCall c None].
Proof.
  intro n. unfold call. destruct (raises env n c); cbn; auto.
  split; auto. right. eauto.
Qed.

Lemma runs_script_print s : runs_script (print s) [EvStdout s].
Proof. intro n. cbn. auto. Qed.

Ltac run_script :=
  repeat first
    [ eapply runs_script_call | eapply runs_script_print
    | eapply runs_script_bind; [| intros ?] ].

Lemma preamble_runs env : runs_script (preamble env) preamble_events.
Proof.
  assert (H : exists s, runs_script (preamble env) s /\ s = preamble_events).
  { eexists. split; [unfold preamble; run_script | reflexivity]. }
  destruct H as (s & H & <-). exact H.
Qed.

Lemma provision_runs env : runs_script (provision env) provision_events.
Proof.
  assert (H : exists s, runs_script (provision env) s /\ s = provision_events).
  { eexists. split.
    - unfold provision, writeL3ForwardRule, writeTunnelIngressRule,
        writeTunnelTransitRule, writeTunnelEgressRule. run_script.
    - reflexivity. }
  destruct H as (s & H & <-). exact H.
Qed.

(** ** The shape of every run of [main] *)

Lemma main_unfold env cycles n :
  main env cycles n =
  (preamble env ;; guarded env cycles ;; call env ShutdownAllSwitchConnections) n.
Proof.
  unfold main, preamble, guarded.
  rewrite bind_assoc. apply bind_ext. intros _ k1.
  rewrite bind_assoc. apply bind_ext. intros _ k2.
  rewrite bind_assoc. apply bind_ext. intros _ k3.
  reflexivity.
Qed.

Lemma handler_main_emits e : emits exit_event (handler_main e).
Proof.
  intro n. unfold handler_main.
  destruct (isinstance_KeyboardInterrupt e); repeat constructor.
Qed.

(** The guarded block: a cut-short provisioning script, then (only after
    the whole script) polling events, then what the handler prints. *)
Lemma guarded_shape env cycles n :
  exists hd lp tl,
    events (guarded env cycles n) = hd ++ lp ++ tl /\
    follows provision_events hd /\
    Forall (poll_event env) lp /\ Forall exit_event tl /\
    (lp <> [] -> hd = provision_events).
Proof.
  unfold guarded. rewrite events_try_except, events_bind, res_bind.
  destruct (provision_runs env n) as [Fv Rv].
  destruct (res (provision env n)) as [[]|e|]; [| |tauto].
  - set (n1 := next (provision env n)).
    exists (events (provision env n)), (events (poll_loop env cycles n1)).
    eexists. rewrite <- app_assoc. split; [reflexivity|].
    split; [auto|]. split; [apply poll_loop_emits|].
    split; [|auto].
    destruct (res (poll_loop env cycles n1)) as [a|e|]; try constructor.
    destruct (catches_main e); [apply handler_main_emits | constructor].
  - exists (events (provision env n)), []. eexists.
    rewrite app_nil_r. cbn [app]. split; [reflexivity|].
    split; [auto|]. split; [constructor|]. split; [|congruence].
    destruct (catches_main e); [apply handler_main_emits | constructor].
Qed.

(** Every run of [main]: the straight-line script cut short, then (only
    after the whole script) polling events, then the exit events. *)
Lemma main_shape env cycles n :
  exists hd lp tl,
    events (main env cycles n) = hd ++ lp ++ tl /\
    follows straight_events hd /\
    Forall (poll_event env) lp /\ Forall exit_event tl /\
    (lp <> [] -> hd = straight_events).
Proof.
  rewrite main_unfold, events_bind.
  destruct (preamble_runs env n) as [Fp Rp].
  destruct (res (preamble env n)) as [[]|e|]; [| |tauto].
  - set (n1 := next (preamble env n)). rewrite events_bind.
    destruct (guarded_shape env cycles n1) as (hd & lp & tl & E & F & L & T & C).
    rewrite E, Rp.
    exists (preamble_events ++ hd), lp. eexists.
    split; [rewrite <- !app_assoc; reflexivity|].
    split; [now apply follows_app_r|]. split; [auto|]. split.
    { apply Forall_app. split; [auto|].
      destruct (res (guarded env cycles n1)); try constructor.
      apply emits_call. intro; exact I. }
    intro H. unfold straight_events. now rewrite C.
  - exists (events (preamble env n)), [], []. rewrite !app_nil_r.
    split; [reflexivity|]. split; [now apply follows_app_l|].
    split; [constructor|]. split; [constructor|]. congruence.
Qed.

Lemma nth_error_app3 {A} (hd lp tl : list A) i x :
  nth_error (hd ++ lp ++ tl) i = Some x ->
  (nth_error hd i = Some x /\ (i < List.length hd)%nat) \/
  (In x lp /\ (List.length hd <= i)%nat) \/
  (In x tl /\ (List.length hd <= i)%nat).
Proof.
  intro H. destruct (Nat.lt_ge_cases i (List.length hd)) as [L|L].
  - left. rewrite nth_error_app1 in H by exact L. auto.
  - right. rewrite nth_error_app2 in H by exact L.
    apply nth_error_In in H. apply in_app_or in H. tauto.
Qed.

(** ** Rules installed by [main] *)

Lemma same_step_sleep ev' ev : same_step ev' ev -> is_sleep ev -> is_sleep ev'.
Proof.
  intros [->|(c & o & o' & -> & ->)]; auto.
Qed.

Lemma same_step_write ev' sw entry o :
  same_step ev' (EvCall (WriteTableEntry sw entry) o) ->
  exists o', ev' = EvCall (WriteTableEntry sw entry) o'.
Proof.
  intros [H|(c & o1 & o' & -> & H)]; [subst; eauto|].
  inversion H; subst. eauto.
Qed.

Lemma straight_no_sleep : Forall (fun ev => ~ is_sleep ev) straight_events.
Proof.
  unfold straight_events, preamble_events, provision_events. cbn [app].
  repeat (constructor; [intros [] |]). constructor.
Qed.

Lemma written_rules_app a b : written_rules (a ++ b) = written_rules a ++ written_rules b.
Proof.
  induction a as [|ev a IH]; cbn; auto.
  destruct ev as [[] []| | |]; cbn; auto. now rewrite IH.
Qed.

Lemma written_rules_none l : Forall (fun ev => ~ is_write ev) l -> written_rules l = [].
Proof.
  induction 1 as [|ev l H _ IH]; cbn; auto.
  destruct ev as [[] []| | |]; cbn in *; auto. tauto.
Qed.

Lemma poll_event_not_write env ev : poll_event env ev -> ~ is_write ev.
Proof. destruct ev as [[] ?| | |]; cbn; tauto. Qed.

Lemma exit_event_not_write ev : exit_event ev -> ~ is_write ev.
Proof. destruct ev as [[] ?| | |]; cbn; tauto. Qed.

(** Once the loop has slept, the whole straight-line script has run. *)
Lemma polling_after_script env cycles n o :
  In (EvCall (Sleep 2) o) (events (main env cycles n)) ->
  exists lp tl,
    events (main env cycles n) = straight_events ++ lp ++ tl /\
    Forall (poll_event env) lp /\ Forall exit_event tl.
Proof.
  intro H. destruct (main_shape env cycles n) as (hd & lp & tl & E & F & L & T & C).
  rewrite E in *. exists lp, tl.
  enough (hd = straight_events) as -> by auto.
  apply In_nth_error in H. destruct H as [i H].
  apply nth_error_app3 in H. destruct H as [[H _]|[[H _]|[H _]]].
  - destruct (follows_nth _ _ _ _ F H) as (ev' & N & S).
    apply same_step_sleep in S; [|exact I].
    apply nth_error_In in N.
    pose proof straight_no_sleep as Z. rewrite Forall_forall in Z.
    now apply Z in N.
  - apply C. intros ->. destruct H.
  - rewrite Forall_forall in T. apply T in H. destruct H.
Qed.

Lemma rules_when_polling env cycles n o :
  In (EvCall (Sleep 2) o) (events (main env cycles n)) ->
  written_rules (events (main env cycles n)) = main_rules.
Proof.
  intro H. destruct (polling_after_script _ _ _ _ H) as (lp & tl & -> & L & T).
  rewrite !written_rules_app.
  rewrite (written_rules_none lp), (written_rules_none tl), !app_nil_r.
  - reflexivity.
  - eapply Forall_impl; [|exact T]. apply exit_event_not_write.
  - eapply Forall_impl; [|exact L]. apply poll_event_not_write.
Qed.

Lemma quiet_run_polls :
  In (EvCall (Sleep 2) None) (events (main quiet_env 1 0%nat)).
Proof.
  apply (nth_error_In _ 65). reflexivity.
Defined.

(** C1. On every run of [main] that reaches the polling loop, the rules
    written are exactly 3 Local Delivery rules, one per host on the host's
    device (h1 on s1, h2 on s2, h3 on s3), and for each of the links
    s1-s2, s1-s3 and s2-s3 exactly 2 Tunnel Ingress, 2 Tunnel Transit and
    2 Tunnel Egress rules; the tunnel identifiers used are 100, 101, 200,
    201, 300 and 301, pairwise distinct. *)
Theorem C1_rule_census env cycles n o :
  In (EvCall (Sleep 2) o) (events (main env cycles n)) ->
  let rules := written_rules (events (main env cycles n)) in
  List.length rules = 21%nat /\
  count_kind LocalDelivery rules = 3%nat /\
  local_deliveries rules =
    [ (name s1, Some H1_IP, [("dstAddr", PStr H1_MAC); ("port", PInt S1_H1_PORT)]);
      (name s2, Some H2_IP, [("dstAddr", PStr H2_MAC); ("port", PInt S2_H2_PORT)]);
      (name s3, Some H3_IP, [("dstAddr", PStr H3_MAC); ("port", PInt S3_H3_PORT)]) ]%string /\
  Forall (fun link =>
            count_kind_on_link TunnelIngress link rules = 2%nat /\
            count_kind_on_link TunnelTransit link rules = 2%nat /\
            count_kind_on_link TunnelEgress link rules = 2%nat) link_tids /\
  tunnel_ids_used rules = [100; 101; 200; 201; 300; 301] /\
  NoDup (tunnel_ids_used rules).
Proof.
  intros H rules. subst rules. rewrite (rules_when_polling _ _ _ _ H).
  split; [reflexivity|]. split; [reflexivity|]. split; [reflexivity|].
  split; [repeat constructor|]. split; [reflexivity|].
  apply NoDup_nodup.
Qed.

Lemma C1_rule_census_witness :
  In (EvCall (Sleep 2) None) (events (main quiet_env 1 0%nat)) /\
  count_kind LocalDelivery (written_rules (events (main quiet_env 1 0%nat))) = 3%nat.
Proof.
  split; [exact quiet_run_polls|].
  exact (proj1 (proj2 (C1_rule_census quiet_env 1 0%nat None quiet_run_polls))).
Defined.

(** C2. On every run of [main] that reaches the polling loop, s1 holds a
    Tunnel Ingress rule matching 10.0.2.2 that sets tunnel id 100, s1
    holds a Tunnel Transit rule for tunnel id 100 forwarding out port 2
    (s1's port toward s2), and s2 holds a Tunnel Egress rule for tunnel id
    100 that sets 08:00:00:00:02:22 and forwards out port 1 (s2's host
    port). *)
Theorem C2_tunnel_100_rules env cycles n o :
  In (EvCall (Sleep 2) o) (events (main env cycles n)) ->
  let rules := written_rules (events (main env cycles n)) in
  In (s1, mkTableEntry "MyIngress.ipv4_lpm"
            [("hdr.ipv4.dstAddr", Lpm "10.0.2.2" 32)]
            "MyIngress.myTunnel_ingress"
            [("dst_id", PInt 100)])%string rules /\
  In (s1, mkTableEntry "MyIngress.myTunnel_exact"
            [("hdr.myTunnel.dst_id", Exact 100)]
            "MyIngress.myTunnel_forward"
            [("port", PInt 2)])%string rules /\
  In (s2, mkTableEntry "MyIngress.myTunnel_exact"
            [("hdr.myTunnel.dst_id", Exact 100)]
            "MyIngress.myTunnel_egress"
            [("dstAddr", PStr "08:00:00:00:02:22"); ("port", PInt 1)])%string rules /\
  S1_S2_PORT = 2 /\ S2_H2_PORT = 1 /\ H2_IP = "10.0.2.2"%string /\
  H2_MAC = "08:00:00:00:02:22"%string /\ TID_S1_S2 = 100.
Proof.
  intros H rules. subst rules. rewrite (rules_when_polling _ _ _ _ H).
  split; [apply (nth_error_In _ 3); reflexivity|].
  split; [apply (nth_error_In _ 4); reflexivity|].
  split; [apply (nth_error_In _ 5); reflexivity|].
  repeat split; reflexivity.
Qed.

Lemma C2_tunnel_100_rules_witness :
  In (EvCall (Sleep 2) None) (events (main quiet_env 1 0%nat)) /\
  In (s1, mkTableEntry "MyIngress.ipv4_lpm"
            [("hdr.ipv4.dstAddr", Lpm "10.0.2.2" 32)]
            "MyIngress.myTunnel_ingress"
            [("dst_id", PInt 100)])%string
     (written_rules (events (main quiet_env 1 0%nat))).
Proof.
  split; [exact quiet_run_polls|].
  exact (proj1 (C2_tunnel_100_rules quiet_env 1 0%nat None quiet_run_polls)).
Defined.

(** ** Pipeline before rules *)

Lemma straight_push_before_write i sw entry o :
  nth_error straight_events i = Some (EvCall (WriteTableEntry sw entry) o) ->
  exists j, (j < i)%nat /\
    nth_error straight_events j = Some (EvCall (SetForwardingPipelineConfig sw) None).
Proof.
  unfold straight_events, preamble_events, provision_events. cbn [app].
  intro H.
  do 65 (destruct i as [|i];
    [ cbn [nth_error] in H; try discriminate H;
      inversion H; subst; clear H;
      first [ exists 11%nat; split; [lia | reflexivity]
            | exists 14%nat; split; [lia | reflexivity]
            | exists 17%nat; split; [lia | reflexivity] ]
    | ]).
  destruct i; discriminate H.
Qed.

(** C4. In every run of [main], whatever the environment does, each
    [WriteTableEntry] on a device comes after a [SetForwardingPipelineConfig]
    on that device that returned without raising. *)
Theorem C4_pipeline_before_rules env cycles n i sw entry o :
  nth_error (events (main env cycles n)) i = Some (EvCall (WriteTableEntry sw entry) o) ->
  exists j, (j < i)%nat /\
    nth_error (events (main env cycles n)) j =
      Some (EvCall (SetForwardingPipelineConfig sw) None).
Proof.
  destruct (main_shape env cycles n) as (hd & lp & tl & E & F & L & T & C).
  rewrite E. intro H. apply nth_error_app3 in H.
  destruct H as [[H Hi]|[[H _]|[H _]]].
  - destruct (follows_nth _ _ _ _ F H) as (ev' & N & S).
    apply same_step_write in S. destruct S as [o' ->].
    destruct (straight_push_before_write _ _ _ _ N) as (j & Hj & P).
    exists j. split; [exact Hj|].
    rewrite nth_error_app1 by lia.
    rewrite (follows_nth_before _ _ _ _ _ F Hj H). exact P.
  - rewrite Forall_forall in L. apply L in H. destruct H.
  - rewrite Forall_forall in T. apply T in H. destruct H.
Qed.

Lemma C4_pipeline_before_rules_witness :
  exists j, (j < 24)%nat /\
    nth_error (events (main quiet_env 1 0%nat)) j =
      Some (EvCall (SetForwardingPipelineConfig s3) None).
Proof.
  exact (C4_pipeline_before_rules quiet_env 1 0%nat 24%nat s3 _ None eq_refl).
Defined.

(** ** Match keys *)

Lemma main_rules_keys_distinct : NoDup (map rule_key main_rules).
Proof.
  unfold main_rules. cbn.
  repeat (constructor;
          [ cbn; intro H; repeat (destruct H as [H|H]; [discriminate H|]); exact H |]).
  constructor.
Qed.

(** C5. On every run of [main] that reaches the polling loop, no two
    rules written to the same table of the same device have the same match
    key: per device the addresses matched in [ipv4_lpm] are pairwise
    distinct and so are the tunnel identifiers matched in
    [myTunnel_exact]. *)
Theorem C5_match_keys_disjoint env cycles n o :
  In (EvCall (Sleep 2) o) (events (main env cycles n)) ->
  let rules := written_rules (events (main env cycles n)) in
  NoDup (map rule_key rules) /\
  Forall (fun dev => NoDup (lpm_keys dev rules) /\ NoDup (tunnel_keys dev rules))
         [name s1; name s2; name s3] /\
  lpm_keys (name s1) rules = [H1_IP; H2_IP; H3_IP] /\
  lpm_keys (name s2) rules = [H2_IP; H1_IP; H3_IP] /\
  lpm_keys (name s3) rules = [H3_IP; H1_IP; H2_IP] /\
  tunnel_keys (name s1) rules = [TID_S1_S2; TID_S2_S1; TID_S1_S3; TID_S3_S1] /\
  tunnel_keys (name s2) rules = [TID_S1_S2; TID_S2_S1; TID_S2_S3; TID_S3_S2] /\
  tunnel_keys (name s3) rules = [TID_S1_S3; TID_S3_S1; TID_S2_S3; TID_S3_S2].
Proof.
  intros H rules. subst rules. rewrite (rules_when_polling _ _ _ _ H).
  split; [exact main_rules_keys_distinct|].
  split.
  { repeat (constructor; [split; cbn;
      repeat (constructor;
              [ cbn; intro K; repeat (destruct K as [K|K]; [discriminate K|]); exact K |]);
      constructor |]).
    constructor. }
  repeat split; reflexivity.
Qed.

Lemma C5_match_keys_disjoint_witness :
  In (EvCall (Sleep 2) None) (events (main quiet_env 1 0%nat)) /\
  NoDup (map rule_key (written_rules (events (main quiet_env 1 0%nat)))).
Proof.
  split; [exact quiet_run_polls|].
  exact (proj1 (C5_match_keys_disjoint quiet_env 1 0%nat None quiet_run_polls)).
Defined.

(** ** Log files: where lines go, and truncation *)

Lemma string_app_assoc (a b c : string) : ((a ++ b) ++ c = a ++ (b ++ c))%string.
Proof. induction a as [|x a IH]; cbn; [reflexivity | now rewrite IH]. Qed.







Lemma poll_event_not_truncate env ev : poll_event env ev -> ~ is_truncate ev.
Proof. destruct ev as [[] ?| | |]; cbn; tauto. Qed.

Lemma exit_event_not_truncate ev : exit_event ev -> ~ is_truncate ev.
Proof. destruct ev as [[] ?| | |]; cbn; tauto. Qed.

Lemma main_appends env cycles n i path data o :
  nth_error (events (main env cycles n)) i = Some (EvCall (OpenAppendWrite path data) o) ->
  log_write env path data.
Proof.
  destruct (main_shape env cycles n) as (hd & lp & tl & E & F & L & T & C).
  rewrite E. intro H. apply nth_error_app3 in H.
  destruct H as [[H _]|[[H _]|[H _]]].
  - destruct (follows_nth _ _ _ _ F H) as (ev' & N & S).
    assert (K : exists o', ev' = EvCall (OpenAppendWrite path data) o').
    { destruct S as [S|(c & o1 & o' & -> & S)]; [subst; eauto|].
      inversion S; subst. eauto. }
    destruct K as [o' ->]. exfalso. revert N.
    unfold straight_events, preamble_events, provision_events. cbn [app].
    do 65 (destruct i as [|i]; [discriminate |]).
    destruct i; discriminate.
  - rewrite Forall_forall in L. apply L in H. exact H.
  - rewrite Forall_forall in T. apply T in H. destruct H.
Qed.



Lemma files_after_app a b fs : files_after (a ++ b) fs = files_after b (files_after a fs).
Proof. apply fold_left_app. Qed.



(** ** Reading one counter *)

Lemma read_counter_spec env sw cn idx k :
  read_counter env sw cn idx k =
  let c := ReadCounters sw cn idx in
  match first_entity (responses env k c) with
  | Some counter =>
      mkOut (Ok (packet_count counter, byte_count counter)) [EvCall c None] (S k)
  | None =>
      match raises env k c with
      | None => mkOut (Ok (0, 0)) [EvCall c None] (S k)
      | Some e =>
          if isinstance_Exception e
          then mkOut (Ok (0, 0))
                     [EvCall c (Some e); EvStderr (error_report cn idx sw e)] (S k)
          else mkOut (Raised e) [EvCall c (Some e)] (S k)
      end
  end.
Proof.
  unfold read_counter, bind, try_except, iter_ReadCounters. cbn zeta.
  destruct (first_entity _) as [d|]; [reflexivity|].
  destruct (raises env k _) as [e|]; [|reflexivity].
  cbn [res]. destruct (isinstance_Exception e); reflexivity.
Qed.

(** When [read_counter] returns, it returns the snapshot. *)
Lemma read_counter_ok env sw cn idx k v :
  res (read_counter env sw cn idx k) = Ok v ->
  v = snapshot env k (ReadCounters sw cn idx) /\
  events (read_counter env sw cn idx k) = read_events env k sw cn idx /\
  next (read_counter env sw cn idx k) = S k.
Proof.
  rewrite read_counter_spec. unfold snapshot, read_events, read_failure. cbn zeta.
  destruct (first_entity _) as [d|]; cbn.
  - intro H. inversion H. auto.
  - destruct (raises env k _) as [e|]; cbn.
    + destruct (isinstance_Exception e); cbn; intro H; inversion H. auto.
    + intro H. inversion H. auto.
Qed.

(** It returns whenever the exception it meets, if any, is an
    [Exception]. *)
Lemma read_counter_returns env sw cn idx k :
  (forall e, raises env k (ReadCounters sw cn idx) = Some e -> isinstance_Exception e = true) ->
  res (read_counter env sw cn idx k) = Ok (snapshot env k (ReadCounters sw cn idx)).
Proof.
  intro H. rewrite read_counter_spec. unfold snapshot. cbn zeta.
  destruct (first_entity _) as [d|]; [reflexivity|].
  destruct (raises env k _) as [e|]; [|reflexivity].
  now rewrite (H e eq_refl).
Qed.

(** ** One directed path, one cycle *)

Lemma bind_ok {A B} (m : M A) (f : A -> M B) n b :
  res (bind m f n) = Ok b -> exists a, res (m n) = Ok a.
Proof.
  rewrite res_bind. destruct (res (m n)) as [a|e|]; try discriminate. eauto.
Qed.

Lemma bind_step {A B} (m : M A) (f : A -> M B) n a :
  res (m n) = Ok a -> bind m f n = prepend (events (m n)) (f a (next (m n))).
Proof. unfold bind, prepend. now intros ->. Qed.

Lemma bind_now {B} env (f : string -> M B) n :
  bind (now_isoformat env) f n = f (isoformat env n) (S n).
Proof. unfold bind. cbn. now destruct (f _ _). Qed.

Lemma bind_print {B} s (f : unit -> M B) n :
  bind (print s) f n = prepend [EvStdout s] (f tt n).
Proof. reflexivity. Qed.

Lemma call_ok env c n u :
  res (call env c n) = Ok u ->
  events (call env c n) = [EvCall c None] /\ next (call env c n) = S n.
Proof.
  unfold call. destruct (raises env n c); cbn; [discriminate | auto].
Qed.

Lemma call_returns env c n : raises env n c = None -> res (call env c n) = Ok tt.
Proof. unfold call. now intros ->. Qed.

Lemma process_link_counters_ok env src dst tid file k :
  file = link_log src dst ->
  res (process_link_counters env src dst tid file k) = Ok tt ->
  events (process_link_counters env src dst tid file k)
    = observation_events env k (src, dst, tid) /\
  next (process_link_counters env src dst tid file k) = (k + 5)%nat.
Proof.
  intros ->. unfold process_link_counters, log_to_file.
  rewrite bind_now, bind_print. cbn [prepend res events next].
  intro H.
  destruct (bind_ok _ _ _ _ H) as ([p b] & R1).
  rewrite (bind_step _ _ _ _ R1) in *. cbn [prepend res events next] in *.
  apply read_counter_ok in R1. destruct R1 as (V1 & E1 & N1). rewrite E1, N1 in *.
  rewrite bind_print in *. cbn [prepend res events next] in *.
  destruct (bind_ok _ _ _ _ H) as ([] & A1).
  rewrite (bind_step _ _ _ _ A1) in *. cbn [prepend res events next] in *.
  apply call_ok in A1. destruct A1 as [E2 N2]. rewrite E2, N2 in *.
  destruct (bind_ok _ _ _ _ H) as ([p' b'] & R2).
  rewrite (bind_step _ _ _ _ R2) in *. cbn [prepend res events next] in *.
  apply read_counter_ok in R2. destruct R2 as (V2 & E3 & N3). rewrite E3, N3 in *.
  rewrite bind_print in *. cbn [prepend res events next] in *.
  apply call_ok in H. destruct H as [E4 N4]. rewrite E4, N4.
  unfold observation_events, observe, ingress_counter, egress_counter.
  cbn [obs_sent obs_received obs_timestamp].
  replace (k + 1)%nat with (S k) by lia.
  replace (k + 3)%nat with (S (S (S k))) by lia.
  rewrite <- V1, <- V2. split; [reflexivity | lia].
Qed.

Lemma process_link_counters_returns env src dst tid file k :
  (forall j path data, raises env j (OpenAppendWrite path data) = None) ->
  (forall j sw cn idx e, raises env j (ReadCounters sw cn idx) = Some e ->
                         isinstance_Exception e = true) ->
  res (process_link_counters env src dst tid file k) = Ok tt.
Proof.
  intros Ha Hr. unfold process_link_counters, log_to_file.
  rewrite bind_now, bind_print. cbn [prepend res].
  rewrite res_bind, read_counter_returns by (intros; eapply Hr; eauto).
  destruct (snapshot _ _ _) as [p b].
  rewrite bind_print. cbn [prepend res].
  rewrite res_bind, call_returns by apply Ha.
  rewrite res_bind, read_counter_returns by (intros; eapply Hr; eauto).
  destruct (snapshot _ _ _) as [p' b'].
  rewrite bind_print. cbn [prepend res].
  apply call_returns, Ha.
Qed.

(** ** One polling cycle *)

Lemma bind_ok_full {A B} (m : M A) (f : A -> M B) n b :
  res (bind m f n) = Ok b ->
  exists a, res (m n) = Ok a /\ res (f a (next (m n))) = Ok b /\
            events (bind m f n) = events (m n) ++ events (f a (next (m n))) /\
            next (bind m f n) = next (f a (next (m n))).
Proof.
  rewrite res_bind, events_bind, next_bind.
  destruct (res (m n)) as [a|e|]; try discriminate. eauto.
Qed.

Lemma res_prepend {A} evs (o : Out A) : res (prepend evs o) = res o.
Proof. reflexivity. Qed.

Lemma events_prepend {A} evs (o : Out A) : events (prepend evs o) = evs ++ events o.
Proof. reflexivity. Qed.

Lemma next_prepend {A} evs (o : Out A) : next (prepend evs o) = next o.
Proof. reflexivity. Qed.

Ltac path_step H :=
  let R := fresh "R" in
  let E := fresh "E" in
  let N := fresh "N" in
  apply bind_ok_full in H; destruct H as ([] & R & H & E & N);
  rewrite E, N; clear E N;
  lazymatch type of R with
  | res (process_link_counters ?e ?a ?b ?t ?f ?k) = _ =>
      destruct (process_link_counters_ok e a b t f k eq_refl R) as [E N]
  end;
  rewrite E; rewrite N in H |- *; clear R E N.

Lemma poll_cycle_ok env n :
  res (poll_cycle env n) = Ok tt ->
  events (poll_cycle env n) = cycle_events env n /\
  next (poll_cycle env n) = (n + 32)%nat.
Proof.
  unfold poll_cycle. intro H.
  apply bind_ok_full in H. destruct H as ([] & S0 & H & E & N).
  rewrite E, N. clear E N.
  apply call_ok in S0. destruct S0 as [E0 N0]. rewrite E0. rewrite N0 in H |- *.
  rewrite bind_now, bind_print in H |- *.
  rewrite res_prepend in H. rewrite events_prepend, next_prepend.
  do 5 path_step H.
  lazymatch type of H with
  | res (process_link_counters ?e ?a ?b ?t ?f ?k) = _ =>
      destruct (process_link_counters_ok e a b t f k eq_refl H) as [E N]
  end.
  rewrite E, N. split; [|lia].
  unfold cycle_events, cycle_starts, tunnel_paths.
  cbn [seq map combine flat_map fst snd].
  rewrite app_nil_r. cbn [app].
  replace (n + 1)%nat with (S n) by lia.
  replace (n + 2 + 5 * 0)%nat with (S (S n)) by lia.
  replace (n + 2 + 5 * 1)%nat with (S (S n) + 5)%nat by lia.
  replace (n + 2 + 5 * 2)%nat with (S (S n) + 5 + 5)%nat by lia.
  replace (n + 2 + 5 * 3)%nat with (S (S n) + 5 + 5 + 5)%nat by lia.
  replace (n + 2 + 5 * 4)%nat with (S (S n) + 5 + 5 + 5 + 5)%nat by lia.
  replace (n + 2 + 5 * 5)%nat with (S (S n) + 5 + 5 + 5 + 5 + 5)%nat by lia.
  reflexivity.
Qed.

Lemma poll_cycle_returns env n :
  (forall j, raises env j (Sleep 2) = None) ->
  (forall j path data, raises env j (OpenAppendWrite path data) = None) ->
  (forall j sw cn idx e, raises env j (ReadCounters sw cn idx) = Some e ->
                         isinstance_Exception e = true) ->
  res (poll_cycle env n) = Ok tt.
Proof.
  intros Hs Ha Hr. unfold poll_cycle.
  rewrite res_bind, call_returns by apply Hs.
  rewrite bind_now, bind_print. cbn [prepend res].
  do 5 (rewrite res_bind, process_link_counters_returns by assumption).
  now apply process_link_counters_returns.
Qed.

(** ** What a cycle appends, reads and reports *)

Lemma flat_map_flat_map {A B C} (g : B -> list C) (f : A -> list B) l :
  flat_map g (flat_map f l) = flat_map (fun x => flat_map g (f x)) l.
Proof.
  induction l as [|x l IH]; cbn; [reflexivity|].
  now rewrite flat_map_app, IH.
Qed.

Lemma appended_read_events env k sw cn idx : appended (read_events env k sw cn idx) = [].
Proof.
  unfold read_events. destruct (read_failure _ _ _) as [e|]; [|reflexivity].
  destruct (isinstance_Exception e); reflexivity.
Qed.

Lemma appended_observation_events env k path :
  appended (observation_events env k path) = obs_lines (observe env k path).
Proof.
  destruct path as [[src dst] tid]. unfold observation_events, appended.
  rewrite !flat_map_app. fold appended. rewrite !appended_read_events.
  reflexivity.
Qed.

Lemma appended_cycle_events env n :
  appended (cycle_events env n) = flat_map obs_lines (cycle_observations env n).
Proof.
  unfold cycle_events, cycle_observations, appended. cbn [flat_map app].
  rewrite flat_map_flat_map. fold appended.
  induction (cycle_starts n) as [|kp l IH]; cbn; [reflexivity|].
  now rewrite appended_observation_events, IH.
Qed.




Lemma stderr_read_events env k sw cn idx :
  (forall e, raises env k (ReadCounters sw cn idx) = Some e -> isinstance_Exception e = true) ->
  stderr_lines (read_events env k sw cn idx) =
  match read_failure env k (ReadCounters sw cn idx) with
  | Some e => [error_report cn idx sw e]
  | None => []
  end.
Proof.
  intro H. unfold read_events, read_failure in *.
  destruct (first_entity _); [reflexivity|].
  destruct (raises env k _) as [e|]; [|reflexivity].
  now rewrite (H e eq_refl).
Qed.

Lemma stderr_cycle_events env n :
  (forall j sw cn idx e, raises env j (ReadCounters sw cn idx) = Some e ->
                         isinstance_Exception e = true) ->
  stderr_lines (cycle_events env n) = cycle_reports env n.
Proof.
  intro Hr. unfold cycle_events, cycle_reports, cycle_reads, stderr_lines.
  cbn [flat_map app]. rewrite !flat_map_flat_map. fold stderr_lines.
  induction (cycle_starts n) as [|[k [[src dst] tid]] l IH]; [reflexivity|].
  cbn [flat_map fst snd]. rewrite IH. f_equal.
  unfold observation_events, stderr_lines. rewrite !flat_map_app. fold stderr_lines.
  rewrite !stderr_read_events by (intros; eapply Hr; eauto).
  cbn. now rewrite app_nil_r.
Qed.

(** ** The format of a log line *)

Lemma prefix_app s t : prefix s (s ++ t)%string = true.
Proof.
  induction s as [|c s IH]; cbn; [now destruct t|].
  destruct (ascii_dec c c); [exact IH | congruence].
Qed.

Lemma contains_prefix sub s : prefix sub s = true -> contains sub s = true.
Proof. intro H. destruct s; cbn [contains]; now rewrite H. Qed.

Lemma contains_skip sub a s : contains sub s = true -> contains sub (a ++ s)%string = true.
Proof.
  intro H. induction a as [|c a IH]; cbn [append]; [exact H|].
  cbn [contains]. rewrite IH. now destruct (prefix _ _).
Qed.

Lemma english_line_contains line :
  english_line_form line -> contains " packets, counter id: " line = true.
Proof.
  intros (ts & dev & verb & count & tid & _ & ->).
  do 7 apply contains_skip. apply contains_prefix, prefix_app.
Qed.

Lemma C7_counterexample :
  exists i path line,
    nth_error (events (main quiet_env 1 0%nat)) i =
      Some (EvCall (OpenAppendWrite path (line ++ nl)%string) None) /\
    line = "2024-05-01T12:00:00.000000 s1发送7个包, 计数器编号为: 100"%string /\
    ~ english_line_form line.
Proof.
  exists 70%nat, "S1S2.txt"%string,
         (sent_line "2024-05-01T12:00:00.000000" "s1" 7 100).
  split; [reflexivity|]. split; [reflexivity|].
  intro H. apply english_line_contains in H. vm_compute in H. discriminate H.
Qed.

(** C7 (as the code has it). Every line appended to a log by any run of
    [main] is the timestamp returned by [isoformat], a space, the device
    name, the word 发送 (on the sending device) or 收到 (on the receiving
    device), the packet count, the text 个包, 计数器编号为: and the tunnel
    identifier, followed by a newline. *)
Theorem C7_log_line_format env cycles n i path data o :
  nth_error (events (main env cycles n)) i = Some (EvCall (OpenAppendWrite path data) o) ->
  exists k dev word p tid,
    In dev ["s1"; "s2"; "s3"]%string /\
    (word = "发送" \/ word = "收到")%string /\
    In tid [100; 101; 200; 201; 300; 301] /\
    data = ((isoformat env k ++ " " ++ dev ++ word ++ str_int p
             ++ "个包, 计数器编号为: " ++ str_int tid) ++ nl)%string.
Proof.
  intro H. apply main_appends in H.
  destruct H as [src dst tid k p Hin | src dst tid k p Hin].
  - exists k, (name src), "发送"%string, p, tid.
    cbn in Hin.
    repeat (destruct Hin as [Hin|Hin];
            [inversion Hin; subst; cbn; repeat split; auto 10|]).
    destruct Hin.
  - exists k, (name dst), "收到"%string, p, tid.
    cbn in Hin.
    repeat (destruct Hin as [Hin|Hin];
            [inversion Hin; subst; cbn; repeat split; auto 10|]).
    destruct Hin.
Qed.

Lemma C7_log_line_format_witness :
  exists k dev word p tid,
    In dev ["s1"; "s2"; "s3"]%string /\
    (word = "发送" \/ word = "收到")%string /\
    In tid [100; 101; 200; 201; 300; 301] /\
    "2024-05-01T12:00:00.000000 s1发送7个包, 计数器编号为: 100
"%string
    = ((isoformat quiet_env k ++ " " ++ dev ++ word ++ str_int p
        ++ "个包, 计数器编号为: " ++ str_int tid) ++ nl)%string.
Proof.
  exact (C7_log_line_format quiet_env 1 0%nat 70%nat "S1S2.txt"%string _ None eq_refl).
Defined.

(** ** Counter reads *)

Lemma C10_counterexample :
  res (read_counter interrupted_read_env s1 ingress_counter TID_S1_S2 0%nat)
  = Raised KeyboardInterrupt.
Proof. reflexivity. Qed.

(** C10 (as the code has it). [read_counter] is a total function of the
    device's answer.  It returns the counts of the first entity of the
    first response that has one; with no entity at all it returns (0, 0)
    when the stream ends and when the stream raises an instance of
    [Exception] (then, and only then, it prints a report on stderr); an
    exception that is not an [Exception], such as [KeyboardInterrupt],
    goes on to the caller.  A read without entities that ends normally
    leaves the same result and events as a read of an entity with zero
    counts. *)
Theorem C10_read_counter_result env sw cn idx k :
  let c := ReadCounters sw cn idx in
  let o := read_counter env sw cn idx k in
  o = match first_entity (responses env k c) with
      | Some counter =>
          mkOut (Ok (packet_count counter, byte_count counter)) [EvCall c None] (S k)
      | None =>
          match raises env k c with
          | None => mkOut (Ok (0, 0)) [EvCall c None] (S k)
          | Some e =>
              if isinstance_Exception e
              then mkOut (Ok (0, 0))
                         [EvCall c (Some e); EvStderr (error_report cn idx sw e)] (S k)
              else mkOut (Raised e) [EvCall c (Some e)] (S k)
          end
      end /\
  res o <> Running /\
  (forall e, res o = Raised e ->
             isinstance_Exception e = false /\ raises env k c = Some e) /\
  (forall e, first_entity (responses env k c) = None -> raises env k c = Some e ->
             isinstance_Exception e = true -> res o = Ok (0, 0)) /\
  (first_entity (responses env k c) = None -> raises env k c = None ->
   o = mkOut (Ok (0, 0)) [EvCall c None] (S k)) /\
  (first_entity (responses env k c) = Some (mkCounterData 0 0) ->
   o = mkOut (Ok (0, 0)) [EvCall c None] (S k)).
Proof.
  intros c o. subst c o. rewrite read_counter_spec. cbn zeta.
  split; [reflexivity|].
  destruct (first_entity _) as [d|];
    [| destruct (raises env k _) as [e|];
       [destruct (isinstance_Exception e) eqn:I|] ];
    repeat split; intros;
    repeat match goal with
           | H : Some _ = Some _ |- _ => inversion H; subst; clear H
           | H : Raised _ = Raised _ |- _ => inversion H; subst; clear H
           end;
    cbn in *; try discriminate; try congruence; auto.
Qed.

(** ** Polling cycles *)

Lemma C3_counterexample :
  first_entity (responses empty_env 3%nat (ReadCounters s1 ingress_counter TID_S1_S2)) = None /\
  nth_error (events (poll_cycle empty_env 0%nat)) 3
    = Some (EvCall (ReadCounters s1 ingress_counter TID_S1_S2) None) /\
  stderr_lines (events (poll_cycle empty_env 0%nat)) = [] /\
  events (poll_cycle empty_env 0%nat) = events (poll_cycle zero_env 0%nat).
Proof. repeat split; reflexivity. Qed.

(** C3 (as the code has it). In a polling cycle in which [sleep] and the
    log writes do not raise and every exception a counter read raises is
    an instance of [Exception]: the cycle returns normally; all six
    observations are appended, each with the snapshot of its reads, which
    is (0, 0) for a read that found no entry; and stderr holds exactly one
    report per read that raised, none for a read that merely found no
    entry. *)
Theorem C3_read_failures_absorbed env n :
  (forall j, raises env j (Sleep 2) = None) ->
  (forall j path data, raises env j (OpenAppendWrite path data) = None) ->
  (forall j sw cn idx e, raises env j (ReadCounters sw cn idx) = Some e ->
                         isinstance_Exception e = true) ->
  res (poll_cycle env n) = Ok tt /\
  appended (events (poll_cycle env n)) = flat_map obs_lines (cycle_observations env n) /\
  map obs_path (cycle_observations env n) = tunnel_paths /\
  stderr_lines (events (poll_cycle env n)) = cycle_reports env n /\
  (forall k c, first_entity (responses env k c) = None -> snapshot env k c = (0, 0)) /\
  (forall k c, first_entity (responses env k c) = None -> raises env k c = None ->
               read_failure env k c = None).
Proof.
  intros Hs Ha Hr.
  pose proof (poll_cycle_returns env n Hs Ha Hr) as R.
  destruct (poll_cycle_ok env n R) as [E _]. rewrite E.
  split; [exact R|]. split; [apply appended_cycle_events|].
  split; [reflexivity|]. split; [now apply stderr_cycle_events|].
  unfold snapshot, read_failure. split; intros k c ->; auto.
Qed.

Lemma C3_read_failures_absorbed_witness :
  res (poll_cycle unreachable_env 0%nat) = Ok tt /\
  List.length (stderr_lines (events (poll_cycle unreachable_env 0%nat))) = 12%nat /\
  List.length (appended (events (poll_cycle unreachable_env 0%nat))) = 12%nat.
Proof.
  assert (H := C3_read_failures_absorbed unreachable_env 0%nat
                 (fun _ => eq_refl) (fun _ _ _ => eq_refl)
                 (fun j sw cn idx e (E : Some (RpcError "UNAVAILABLE") = Some e) =>
                    match E in _ = x return match x with
                                            | Some e' => isinstance_Exception e' = true
                                            | None => True
                                            end
                    with eq_refl => eq_refl end)).
  destruct H as (R & A & _ & S & _). split; [exact R|].
  rewrite A, S. split; reflexivity.
Defined.



(** ** Leaving [main] *)

(** When [main] returns, its last act was [ShutdownAllSwitchConnections]. *)
Lemma main_returns_after_shutdown env cycles n :
  res (main env cycles n) = Ok tt ->
  exists tr, events (main env cycles n) = tr ++ [EvCall ShutdownAllSwitchConnections None].
Proof.
  rewrite main_unfold. intro H.
  apply bind_ok_full in H. destruct H as ([] & _ & H & -> & _).
  apply bind_ok_full in H. destruct H as ([] & _ & H & -> & _).
  apply call_ok in H. destruct H as [-> _].
  eexists. rewrite app_assoc. reflexivity.
Qed.

(** C9. The run in which the first append to a log file fails with an
    [OSError]: the three connections exist, the exception is neither a
    [KeyboardInterrupt] nor a [grpc.RpcError], it leaves [main], and
    [ShutdownAllSwitchConnections] is never called. *)
Theorem C9_oserror_skips_shutdown :
  let o := main log_unwritable_env 1 0%nat in
  res o = Raised (OtherException "OSError") /\
  catches_main (OtherException "OSError") = false /\
  In (EvCall (Connect s1) None) (events o) /\
  In (EvCall (Connect s2) None) (events o) /\
  In (EvCall (Connect s3) None) (events o) /\
  Forall (fun ev => ~ is_shutdown ev) (events o).
Proof.
  cbv zeta. split; [reflexivity|]. split; [reflexivity|].
  split; [apply (nth_error_In _ 4); reflexivity|].
  split; [apply (nth_error_In _ 5); reflexivity|].
  split; [apply (nth_error_In _ 6); reflexivity|].
  vm_compute. repeat (constructor; [exact (fun x => x)|]). constructor.
Qed.

(** ** Where exceptions come from *)

Lemma ro_weaken env (Q Q' : Call -> PyExc -> Prop) {A} (m : M A) :
  (forall c e, Q c e -> Q' c e) -> raise_origin env Q m -> raise_origin env Q' m.
Proof.
  intros W H n e R. destruct (H n e R) as (tr & c & k & E & K & q). eauto 8.
Qed.

Lemma ro_ret env Q {A} (a : A) : raise_origin env Q (ret a).
Proof. intros n e R. discriminate R. Qed.

Lemma ro_print env Q s : raise_origin env Q (print s).
Proof. intros n e R. discriminate R. Qed.

Lemma ro_call env (Q : Call -> PyExc -> Prop) c :
  (forall e, Q c e) -> raise_origin env Q (call env c).
Proof.
  intros q n e. unfold call. destruct (raises env n c) as [e'|] eqn:K; cbn; [|discriminate].
  intro R. inversion R; subst. exists [], c, n. auto.
Qed.

Lemma ro_bind env Q {A B} (m : M A) (f : A -> M B) :
  raise_origin env Q m -> (forall a, raise_origin env Q (f a)) ->
  raise_origin env Q (bind m f).
Proof.
  intros Hm Hf n e. rewrite res_bind, events_bind.
  destruct (res (m n)) as [a|e'|] eqn:R; [| |discriminate].
  - intro R'. destruct (Hf a _ e R') as (tr & c & k & E & K & q).
    exists (events (m n) ++ tr), c, k. rewrite E, app_assoc. auto.
  - intro R'. inversion R'; subst. destruct (Hm n e R) as (tr & c & k & E & K & q).
    exists tr, c, k. rewrite app_nil_r. auto.
Qed.

Lemma ro_bind_now env Q {B} (f : string -> M B) :
  (forall ts, raise_origin env Q (f ts)) -> raise_origin env Q (bind (now_isoformat env) f).
Proof. intros H n e. rewrite bind_now. apply H. Qed.

Lemma ro_read_counter env (Q : Call -> PyExc -> Prop) sw cn idx :
  (forall e, isinstance_Exception e = false -> Q (ReadCounters sw cn idx) e) ->
  raise_origin env Q (read_counter env sw cn idx).
Proof.
  intros q n e. rewrite read_counter_spec. cbn zeta.
  destruct (first_entity _); [discriminate|].
  destruct (raises env n _) as [e'|] eqn:K; [|discriminate].
  destruct (isinstance_Exception e') eqn:I; [discriminate|].
  cbn. intro R. inversion R; subst. exists [], (ReadCounters sw cn idx), n. auto.
Qed.

Ltac ro_run :=
  repeat first
    [ apply ro_print | apply ro_ret
    | apply ro_call; intro; split; cbn; tauto
    | apply ro_read_counter; intros; split; cbn; tauto
    | apply ro_bind_now; intros ?
    | apply ro_bind; [| intros ?]
    | match goal with
      | |- raise_origin _ _ (match ?x with _ => _ end) => destruct x
      end ].

Lemma ro_process_link_counters env src dst tid file :
  raise_origin env in_try (process_link_counters env src dst tid file).
Proof. unfold process_link_counters, log_to_file. ro_run. Qed.

Lemma ro_poll_cycle env : raise_origin env in_try (poll_cycle env).
Proof.
  unfold poll_cycle.
  repeat first [ apply ro_process_link_counters | progress ro_run ].
Qed.

Lemma ro_poll_loop env cycles : raise_origin env in_try (poll_loop env cycles).
Proof.
  induction cycles as [|k IH]; cbn [poll_loop].
  - intros n e R. discriminate R.
  - apply ro_bind; [apply ro_poll_cycle | intros _; exact IH].
Qed.

Lemma ro_provision env : raise_origin env in_try (provision env).
Proof.
  unfold provision, writeL3ForwardRule, writeTunnelIngressRule,
    writeTunnelTransitRule, writeTunnelEgressRule. ro_run.
Qed.

Lemma ro_preamble env : raise_origin env (fun c _ => outside_try c) (preamble env).
Proof.
  unfold preamble.
  repeat first [ apply ro_call; intro; exact I | apply ro_bind; [| intros ?] ].
Qed.

Lemma handler_main_returns e n :
  res (handler_main e n) = Ok tt /\ events (handler_main e n) = [handler_event e].
Proof.
  unfold handler_main, handler_event. now destruct (isinstance_KeyboardInterrupt e).
Qed.

Lemma body_no_exit env cycles n a :
  res ((provision env ;; poll_loop env cycles) n) <> Ok a.
Proof.
  rewrite res_bind. destruct (res (provision env n)); try discriminate.
  apply poll_loop_no_exit.
Qed.

(** What leaves the [try] block uncaught. *)
Lemma ro_guarded env cycles :
  raise_origin env (fun c e => in_try c e /\ catches_main e = false) (guarded env cycles).
Proof.
  intros n e. unfold guarded. rewrite res_try_except, events_try_except.
  destruct (res ((provision env ;; poll_loop env cycles) n)) as [a|e'|] eqn:B;
    try discriminate.
  destruct (catches_main e') eqn:C.
  - rewrite (proj1 (handler_main_returns e' _)). discriminate.
  - intro R. inversion R; subst.
    assert (O : raise_origin env in_try (provision env ;; poll_loop env cycles)).
    { apply ro_bind; [apply ro_provision | intros _; apply ro_poll_loop]. }
    destruct (O n e B) as (tr & c & k & E & K & q).
    exists tr, c, k. rewrite app_nil_r. auto.
Qed.

(** X1. Whenever [main] returns, it has caught a [KeyboardInterrupt] or
    a [grpc.RpcError] raised by a call inside its [try] block, and the run
    ends with that call, then the handler's message ([" Shutting down."]
    or [printGrpcError]), then a [ShutdownAllSwitchConnections] that
    returned. *)
Theorem X1_main_returns_only_after_caught_exception env cycles n :
  res (main env cycles n) = Ok tt ->
  exists tr c e k,
    events (main env cycles n)
      = tr ++ [EvCall c (Some e); handler_event e;
               EvCall ShutdownAllSwitchConnections None] /\
    raises env k c = Some e /\ catches_main e = true /\ in_try c e.
Proof.
  rewrite main_unfold. intro H.
  apply bind_ok_full in H. destruct H as ([] & _ & H & E1 & _). rewrite E1.
  apply bind_ok_full in H. destruct H as ([] & G & H & E2 & _). rewrite E2.
  apply call_ok in H. destruct H as [E3 _]. rewrite E3.
  unfold guarded in G |- *. rewrite res_try_except in G. rewrite events_try_except.
  destruct (res ((provision env ;; poll_loop env cycles) _)) as [a|e|] eqn:B.
  - now apply body_no_exit in B.
  - destruct (catches_main e) eqn:C; [|discriminate G].
    rewrite (proj2 (handler_main_returns e _)).
    assert (O : raise_origin env in_try (provision env ;; poll_loop env cycles)).
    { apply ro_bind; [apply ro_provision | intros _; apply ro_poll_loop]. }
    destruct (O _ e B) as (tr & c & k & E & K & q). rewrite E.
    exists (events (preamble env n) ++ tr), c, e, k.
    split; [|auto]. rewrite <- !app_assoc. reflexivity.
  - discriminate G.
Qed.

Lemma X1_main_returns_only_after_caught_exception_witness :
  exists tr c e k,
    events (main interrupted_sleep_env 1 0%nat)
      = tr ++ [EvCall c (Some e); handler_event e;
               EvCall ShutdownAllSwitchConnections None] /\
    raises interrupted_sleep_env k c = Some e /\ catches_main e = true /\ in_try c e.
Proof.
  exact (X1_main_returns_only_after_caught_exception interrupted_sleep_env 1 0%nat eq_refl).
Defined.

(** X2. Whenever an exception leaves [main], it is the exception raised
    by the last call [main] made; it is never an [Exception] raised by a
    counter read; and a [KeyboardInterrupt] or [grpc.RpcError] leaves
    [main] only when it was raised outside the [try] block (by the
    [P4InfoHelper] constructor, a log truncation or
    [ShutdownAllSwitchConnections]). *)
Theorem X2_exception_leaving_main env cycles n e :
  res (main env cycles n) = Raised e ->
  exists tr c k,
    events (main env cycles n) = tr ++ [EvCall c (Some e)] /\
    raises env k c = Some e /\
    (is_read c -> isinstance_Exception e = false) /\
    (catches_main e = true -> outside_try c).
Proof.
  rewrite main_unfold.
  set (Q := fun c e => (is_read c -> isinstance_Exception e = false) /\
                       (catches_main e = true -> outside_try c)).
  assert (O : raise_origin env Q
                (preamble env ;; guarded env cycles ;;
                 call env ShutdownAllSwitchConnections)).
  { apply ro_bind; [|intros _; apply ro_bind; [|intros _]].
    - eapply ro_weaken; [|apply ro_preamble]. intros c e' o. split; [|auto].
      destruct c; destruct o; intros [].
    - eapply ro_weaken; [|apply ro_guarded]. intros c e' [[_ r] C]. split; [exact r|].
      congruence.
    - apply ro_call. intro e'. split; [intros [] | intros _; exact I]. }
  intro R. destruct (O n e R) as (tr & c & k & E & K & q1 & q2). eauto 8.
Qed.

Lemma X2_exception_leaving_main_witness :
  exists tr c k,
    events (main log_unwritable_env 1 0%nat) = tr ++ [EvCall c (Some (OtherException "OSError"))] /\
    raises log_unwritable_env k c = Some (OtherException "OSError") /\
    (is_read c -> isinstance_Exception (OtherException "OSError") = false) /\
    (catches_main (OtherException "OSError") = true -> outside_try c).
Proof.
  exact (X2_exception_leaving_main log_unwritable_env 1 0%nat _ eq_refl).
Defined.

(** ** Order of a run: rules first, then polling, shutdown last *)

Lemma follows_written_prefix script evs :
  follows script evs ->
  exists k, written_rules evs = firstn k (written_rules script).
Proof.
  revert evs. induction script as [|ev' script IH]; intros [|ev evs] F.
  - now exists 0%nat.
  - destruct F.
  - now exists 0%nat.
  - cbn in F. destruct F as [[-> F]|(c & e & -> & -> & ->)].
    + destruct (IH evs F) as [k E].
      destruct ev' as [[] [x|]| | |]; cbn [written_rules]; eauto.
      exists (S k). cbn. now rewrite E.
    + exists 0%nat. now destruct c.
Qed.

Lemma NoDup_firstn {A} k (l : list A) : NoDup l -> NoDup (firstn k l).
Proof.
  intro H. rewrite <- (firstn_skipn k l) in H. now apply NoDup_app_remove_r in H.
Qed.

(** X3. In every run of [main], whatever fails, the rules written so far
    are an initial segment of the script's 21 rules, in the script's
    order: a failure leaves the rules before it installed and none after
    it, and no rule is ever written twice. *)
Theorem X3_rules_written_are_a_prefix env cycles n :
  exists k,
    written_rules (events (main env cycles n)) = firstn k main_rules /\
    NoDup (written_rules (events (main env cycles n))).
Proof.
  destruct (main_shape env cycles n) as (hd & lp & tl & E & F & L & T & C).
  rewrite E, !written_rules_app.
  rewrite (written_rules_none lp), (written_rules_none tl), !app_nil_r.
  - destruct (follows_written_prefix _ _ F) as [k K]. exists k.
    change (written_rules straight_events) with main_rules in K. rewrite K.
    split; [reflexivity|]. apply NoDup_firstn.
    apply (NoDup_map_inv rule_key), main_rules_keys_distinct.
  - eapply Forall_impl; [|exact T]. apply exit_event_not_write.
  - eapply Forall_impl; [|exact L]. apply poll_event_not_write.
Qed.

Lemma same_step_call ev' c o :
  same_step ev' (EvCall c o) -> exists o', ev' = EvCall c o'.
Proof.
  intros [H|(c' & o1 & o' & -> & H)]; [subst; eauto|].
  inversion H; subst. eauto.
Qed.

Lemma poll_event_polling env c o : poll_event env (EvCall c o) -> polling_call c.
Proof. destruct c; cbn; tauto. Qed.

Lemma exit_event_shutdown c o :
  exit_event (EvCall c o) -> c = ShutdownAllSwitchConnections.
Proof. destruct c; cbn; tauto. Qed.

(** X4. In every run of [main], once the loop has slept for the first
    time no connection is opened, no pipeline pushed, no rule written and
    no log truncated any more: every such call comes before every
    [sleep]. *)
Theorem X4_nothing_provisioned_after_polling_starts env cycles n i j secs o c o' :
  nth_error (events (main env cycles n)) i = Some (EvCall (Sleep secs) o) ->
  nth_error (events (main env cycles n)) j = Some (EvCall c o') ->
  provisioning_call c ->
  (j < i)%nat.
Proof.
  destruct (main_shape env cycles n) as (hd & lp & tl & E & F & L & T & C).
  rewrite E. intros Hi Hj P.
  assert (Li : (List.length hd <= i)%nat).
  { apply nth_error_app3 in Hi. destruct Hi as [[H _]|[[_ H]|[_ H]]]; auto.
    destruct (follows_nth _ _ _ _ F H) as (ev' & N & S).
    apply same_step_sleep in S; [|exact I].
    apply nth_error_In in N.
    pose proof straight_no_sleep as Z. rewrite Forall_forall in Z.
    now apply Z in N. }
  apply nth_error_app3 in Hj. destruct Hj as [[_ H]|[[H _]|[H _]]]; [lia| |].
  - rewrite Forall_forall in L. apply L, poll_event_polling in H.
    destruct c; destruct P; destruct H.
  - rewrite Forall_forall in T. apply T, exit_event_shutdown in H.
    subst. destruct P.
Qed.

Lemma X4_nothing_provisioned_after_polling_starts_witness : (63 < 65)%nat.
Proof.
  exact (X4_nothing_provisioned_after_polling_starts quiet_env 1 0%nat
           65%nat 63%nat 2 None _ None eq_refl eq_refl I).
Defined.

Lemma straight_all_returned :
  Forall (fun ev => forall c e, ev <> EvCall c (Some e)) straight_events.
Proof.
  unfold straight_events, preamble_events, provision_events. cbn [app].
  repeat (constructor; [intros c e; discriminate |]). constructor.
Qed.

Lemma straight_no_polling : Forall (fun ev => ~ is_polling ev) straight_events.
Proof.
  unfold straight_events, preamble_events, provision_events. cbn [app].
  repeat (constructor; [intros [] |]). constructor.
Qed.

(** X5. If a call of the start-up phase raises (loading the P4Info,
    truncating a log, connecting, arbitration, a pipeline push or a rule
    write), the polling loop is never entered: the run contains no
    [sleep], no counter read and no append to a log. *)
Theorem X5_startup_failure_prevents_polling env cycles n i c e :
  nth_error (events (main env cycles n)) i = Some (EvCall c (Some e)) ->
  provisioning_call c ->
  Forall (fun ev => ~ is_polling ev) (events (main env cycles n)).
Proof.
  destruct (main_shape env cycles n) as (hd & lp & tl & E & F & L & T & C).
  rewrite E. intros H P.
  assert (Hhd : nth_error hd i = Some (EvCall c (Some e))).
  { apply nth_error_app3 in H. destruct H as [[H _]|[[H _]|[H _]]]; auto.
    - rewrite Forall_forall in L. apply L, poll_event_polling in H.
      destruct c; destruct P; destruct H.
    - rewrite Forall_forall in T. apply T, exit_event_shutdown in H.
      subst. destruct P. }
  assert (lp = []) as ->.
  { destruct lp as [|x lp]; [reflexivity|]. exfalso.
    rewrite C in Hhd by discriminate. apply nth_error_In in Hhd.
    pose proof straight_all_returned as Z. rewrite Forall_forall in Z.
    now apply (Z _ Hhd c e). }
  cbn [app]. apply Forall_app. split.
  - apply Forall_forall. intros ev Hin Q.
    apply In_nth_error in Hin. destruct Hin as [j Hj].
    destruct (follows_nth _ _ _ _ F Hj) as (ev' & N & S).
    destruct ev as [c0 o0| | |]; try destruct Q.
    apply same_step_call in S. destruct S as [o' ->].
    apply nth_error_In in N.
    pose proof straight_no_polling as Z. rewrite Forall_forall in Z.
    now apply Z in N.
  - eapply Forall_impl; [|exact T]. intros [c0 o0| | |] X Q; try destruct Q.
    apply exit_event_shutdown in X. subst. destruct Q.
Qed.

Lemma X5_startup_failure_prevents_polling_witness :
  Forall (fun ev => ~ is_polling ev) (events (main push_fails_env 1 0%nat)).
Proof.
  exact (X5_startup_failure_prevents_polling push_fails_env 1 0%nat 14%nat
           (SetForwardingPipelineConfig s2) (RpcError "UNKNOWN") eq_refl I).
Defined.

Lemma emits_weaken {A} (P P' : Event -> Prop) (m : M A) :
  (forall ev, P ev -> P' ev) -> emits P m -> emits P' m.
Proof. intros W H n. eapply Forall_impl; [exact W | apply H]. Qed.

Lemma provision_no_shutdown env : emits (fun ev => ~ is_shutdown ev) (provision env).
Proof.
  unfold provision, writeL3ForwardRule, writeTunnelIngressRule,
    writeTunnelTransitRule, writeTunnelEgressRule.
  repeat first
    [ apply emits_print; intros []
    | apply emits_call; intros ? []
    | apply emits_bind; [| intros ?] ].
Qed.

Lemma guarded_no_shutdown env cycles :
  emits (fun ev => ~ is_shutdown ev) (guarded env cycles).
Proof.
  unfold guarded. apply emits_try_except.
  - apply emits_bind; [apply provision_no_shutdown | intros _].
    eapply emits_weaken; [|apply poll_loop_emits].
    intros [[] ?| | |]; cbn; tauto.
  - intros e n. unfold handler_main.
    destruct (isinstance_KeyboardInterrupt e); repeat constructor; intros [].
Qed.

Lemma preamble_no_shutdown env : emits (fun ev => ~ is_shutdown ev) (preamble env).
Proof.
  unfold preamble.
  repeat first [ apply emits_call; intros ? [] | apply emits_bind; [| intros ?] ].
Qed.

Lemma main_split env cycles n :
  exists before last,
    events (main env cycles n) = before ++ last /\
    Forall (fun ev => ~ is_shutdown ev) before /\ (List.length last <= 1)%nat.
Proof.
  rewrite main_unfold, events_bind.
  destruct (res (preamble env n)) as [[]|e|].
  - rewrite events_bind, app_assoc.
    eexists. eexists. split; [reflexivity|]. split.
    + apply Forall_app. split; [apply preamble_no_shutdown | apply guarded_no_shutdown].
    + destruct (res (guarded env cycles _)); cbn; try lia.
      unfold call. destruct (raises env _ _); cbn; lia.
  - exists (events (preamble env n)), []. split; [reflexivity|].
    split; [apply preamble_no_shutdown | cbn; lia].
  - exists (events (preamble env n)), []. split; [reflexivity|].
    split; [apply preamble_no_shutdown | cbn; lia].
Qed.

(** X6. In every run of [main], [ShutdownAllSwitchConnections] is called
    at most once and nothing happens after it: if it appears in the run,
    it is the last event. *)
Theorem X6_shutdown_is_the_last_event env cycles n i o :
  nth_error (events (main env cycles n)) i = Some (EvCall ShutdownAllSwitchConnections o) ->
  S i = List.length (events (main env cycles n)).
Proof.
  destruct (main_split env cycles n) as (before & last & -> & B & L).
  intro H. rewrite length_app.
  destruct (Nat.lt_ge_cases i (List.length before)) as [Lt|Ge].
  - rewrite nth_error_app1 in H by exact Lt.
    apply nth_error_In in H. rewrite Forall_forall in B.
    exfalso. exact (B _ H I).
  - rewrite nth_error_app2 in H by exact Ge.
    assert (i - List.length before < List.length last)%nat.
    { apply nth_error_Some. congruence. }
    lia.
Qed.

Lemma X6_shutdown_is_the_last_event_witness :
  68%nat = List.length (events (main interrupted_sleep_env 1 0%nat)).
Proof.
  exact (X6_shutdown_is_the_last_event interrupted_sleep_env 1 0%nat 67%nat None eq_refl).
Defined.

(** ** A run in which only counter reads fail *)

Lemma quiet_call env c n :
  (forall j c e, raises env j c = Some e -> is_read c /\ isinstance_Exception e = true) ->
  ~ is_read c -> raises env n c = None.
Proof.
  intros Hq Hc. destruct (raises env n c) as [e|] eqn:K; [|reflexivity].
  apply Hq in K. tauto.
Qed.

Lemma steps_call env c :
  (forall j c e, raises env j c = Some e -> is_read c /\ isinstance_Exception e = true) ->
  ~ is_read c -> steps (call env c) 1.
Proof.
  intros Hq Hc n. unfold call. rewrite (quiet_call env c n Hq Hc). cbn. split; [reflexivity | lia].
Qed.

Lemma steps_print s : steps (print s) 0.
Proof. intro n. cbn. split; [reflexivity | lia]. Qed.

Lemma steps_bind (m k : M unit) t1 t2 :
  steps m t1 -> steps k t2 -> steps (m ;; k) (t1 + t2).
Proof.
  intros Hm Hk n. destruct (Hm n) as [R N].
  rewrite res_bind, next_bind, R, N. destruct (Hk (n + t1)%nat) as [R' N'].
  rewrite R', N'. split; [reflexivity | lia].
Qed.

Ltac run_steps Hq :=
  repeat first
    [ eapply steps_print
    | eapply steps_call; [exact Hq | intros []]
    | eapply steps_bind ].

Lemma preamble_steps env :
  (forall j c e, raises env j c = Some e -> is_read c /\ isinstance_Exception e = true) ->
  steps (preamble env) 4.
Proof.
  intro Hq.
  assert (H : exists t, steps (preamble env) t /\ t = 4%nat).
  { eexists. split; [unfold preamble; run_steps Hq | reflexivity]. }
  destruct H as (t & H & <-). exact H.
Qed.

Lemma provision_steps env :
  (forall j c e, raises env j c = Some e -> is_read c /\ isinstance_Exception e = true) ->
  steps (provision env) 30.
Proof.
  intro Hq.
  assert (H : exists t, steps (provision env) t /\ t = 30%nat).
  { eexists. split.
    - unfold provision, writeL3ForwardRule, writeTunnelIngressRule,
        writeTunnelTransitRule, writeTunnelEgressRule. run_steps Hq.
    - reflexivity. }
  destruct H as (t & H & <-). exact H.
Qed.

(** The loop, as long as [sleep] and the appends return and reads raise
    nothing but [Exception]s: cycle after cycle, 32 interactions each. *)
Lemma poll_loop_runs env cycles n :
  (forall j, raises env j (Sleep 2) = None) ->
  (forall j path data, raises env j (OpenAppendWrite path data) = None) ->
  (forall j sw cn idx e, raises env j (ReadCounters sw cn idx) = Some e ->
                         isinstance_Exception e = true) ->
  res (poll_loop env cycles n) = Running /\
  events (poll_loop env cycles n) = loop_events env cycles n.
Proof.
  intros Hs Ha Hr. revert n. induction cycles as [|k IH]; intro n; cbn [poll_loop loop_events].
  - split; reflexivity.
  - pose proof (poll_cycle_returns env n Hs Ha Hr) as R.
    destruct (poll_cycle_ok env n R) as [E N].
    rewrite res_bind, events_bind, R, N, E.
    destruct (IH (n + 32)%nat) as [R' E']. rewrite R', E'. split; reflexivity.
Qed.

Lemma appended_loop_events env cycles n :
  appended (loop_events env cycles n) = flat_map obs_lines (loop_observations env cycles n).
Proof.
  revert n. induction cycles as [|k IH]; intro n; cbn [loop_events loop_observations];
    [reflexivity|].
  unfold appended. rewrite !flat_map_app. fold appended.
  now rewrite appended_cycle_events, IH.
Qed.

Lemma loop_lines_count env cycles n :
  List.length (flat_map obs_lines (loop_observations env cycles n)) = (12 * cycles)%nat.
Proof.
  revert n. induction cycles as [|k IH]; intro n; cbn [loop_observations]; [reflexivity|].
  rewrite flat_map_app, length_app, IH.
  change (List.length (flat_map obs_lines (cycle_observations env n))) with 12%nat. lia.
Qed.

(** X7. If nothing ever fails except counter reads, and those only with
    [Exception]s (gRPC errors included), [main] never stops: after any
    number of cycles it is still running, every start-up call has
    returned, and every cycle has appended its six observations (twelve
    lines), each cycle taking 32 interactions. *)
Theorem X7_read_errors_never_stop_the_controller env cycles n :
  (forall j c e, raises env j c = Some e -> is_read c /\ isinstance_Exception e = true) ->
  res (main env cycles n) = Running /\
  events (main env cycles n) = straight_events ++ loop_events env cycles (n + 34) /\
  appended (events (main env cycles n))
    = flat_map obs_lines (loop_observations env cycles (n + 34)) /\
  List.length (appended (events (main env cycles n))) = (12 * cycles)%nat.
Proof.
  intro Hq.
  assert (Hs : forall j, raises env j (Sleep 2) = None)
    by (intro; apply quiet_call; [exact Hq | intros []]).
  assert (Ha : forall j path data, raises env j (OpenAppendWrite path data) = None)
    by (intros; apply quiet_call; [exact Hq | intros []]).
  assert (Hr : forall j sw cn idx e, raises env j (ReadCounters sw cn idx) = Some e ->
                                     isinstance_Exception e = true)
    by (intros j sw cn idx e K; apply (Hq _ _ _ K)).
  destruct (preamble_steps env Hq n) as [Rp Np].
  destruct (preamble_runs env n) as [_ Ep]. rewrite Rp in Ep.
  destruct (provision_steps env Hq (n + 4)%nat) as [Rv Nv].
  destruct (provision_runs env (n + 4)%nat) as [_ Ev]. rewrite Rv in Ev.
  destruct (poll_loop_runs env cycles (n + 4 + 30)%nat Hs Ha Hr) as [Rl El].
  replace (n + 4 + 30)%nat with (n + 34)%nat in * by lia.
  assert (G : res (guarded env cycles (n + 4)%nat) = Running /\
              events (guarded env cycles (n + 4)%nat)
                = provision_events ++ loop_events env cycles (n + 34)).
  { unfold guarded. rewrite res_try_except, events_try_except.
    rewrite res_bind, events_bind, Rv, Nv, Ev.
    replace (n + 4 + 30)%nat with (n + 34)%nat by lia.
    rewrite Rl, El, app_nil_r. split; reflexivity. }
  destruct G as [Rg Eg].
  assert (E : res (main env cycles n) = Running /\
              events (main env cycles n)
                = straight_events ++ loop_events env cycles (n + 34)).
  { rewrite main_unfold, res_bind, events_bind, Rp, Np, Ep.
    rewrite res_bind, events_bind, Rg, Eg, app_nil_r.
    unfold straight_events. rewrite <- app_assoc. split; reflexivity. }
  destruct E as [R E]. rewrite E. split; [exact R|]. split; [reflexivity|].
  assert (A : appended (straight_events ++ loop_events env cycles (n + 34))
              = flat_map obs_lines (loop_observations env cycles (n + 34))).
  { unfold appended. rewrite flat_map_app. fold appended.
    rewrite appended_loop_events. reflexivity. }
  rewrite A. split; [reflexivity | apply loop_lines_count].
Qed.

Lemma X7_read_errors_never_stop_the_controller_witness :
  res (main unreachable_env 3 0%nat) = Running /\
  List.length (appended (events (main unreachable_env 3 0%nat))) = 36%nat.
Proof.
  assert (Hq : forall j c e, raises unreachable_env j c = Some e ->
                             is_read c /\ isinstance_Exception e = true).
  { intros j c e. destruct c; cbn; try discriminate.
    intro K. inversion K. split; [exact I | reflexivity]. }
  destruct (X7_read_errors_never_stop_the_controller unreachable_env 3 0%nat Hq)
    as (R & _ & _ & L).
  split; [exact R | exact L].
Defined.

(** ** What the log files hold after a run *)

Lemma string_app_nil_r (s : string) : (s ++ "")%string = s.
Proof. induction s as [|c s IH]; cbn; congruence. Qed.

Lemma files_after_appends l :
  Forall (fun ev => ~ is_truncate ev) l ->
  forall fs f, files_after l fs f = (fs f ++ lines_for f (appended l))%string.
Proof.
  induction 1 as [|ev l H _ IH]; intros fs f.
  - cbn. now rewrite string_app_nil_r.
  - unfold files_after. cbn [fold_left]. fold (files_after l (file_step fs ev)).
    rewrite IH.
    destruct ev as [[] [e|]| | |]; cbn in H |- *; try reflexivity; try tauto.
    unfold lines_for. cbn [filter fst snd map fold_right].
    destruct (String.eqb f path); [|reflexivity].
    cbn [map fold_right snd]. apply string_app_assoc.
Qed.

Lemma files_after_straight fs f :
  In f [s1s2_log; s1s3_log; s2s3_log] -> files_after straight_events fs f = ""%string.
Proof.
  intros [<-|[<-|[<-|[]]]]; reflexivity.
Qed.

(** X8. After any run of [main] that reached the polling loop, each of
    the three log files holds exactly the data this run appended to it, in
    the order of the appends: whatever the file held before the run is
    gone, and nothing else was written to it. *)
Theorem X8_log_holds_this_runs_lines env cycles n o f fs :
  In (EvCall (Sleep 2) o) (events (main env cycles n)) ->
  In f [s1s2_log; s1s3_log; s2s3_log] ->
  files_after (events (main env cycles n)) fs f
    = lines_for f (appended (events (main env cycles n))).
Proof.
  intros H Hf. destruct (polling_after_script _ _ _ _ H) as (lp & tl & -> & L & T).
  rewrite files_after_app, files_after_appends.
  - rewrite (files_after_straight fs f Hf).
    unfold appended at 2. rewrite flat_map_app. fold appended. reflexivity.
  - apply Forall_app. split.
    + eapply Forall_impl; [|exact L]. apply poll_event_not_truncate.
    + eapply Forall_impl; [|exact T]. apply exit_event_not_truncate.
Qed.

Lemma X8_log_holds_this_runs_lines_witness :
  files_after (events (main quiet_env 1 0%nat)) (fun _ => "old contents"%string) s1s2_log
    = lines_for s1s2_log (appended (events (main quiet_env 1 0%nat))).
Proof.
  exact (X8_log_holds_this_runs_lines quiet_env 1 0%nat None s1s2_log _
           quiet_run_polls (or_introl eq_refl)).
Defined.

(** ** Reading a counter: only the first entity counts *)

Lemma first_entity_skip pre d rest later :
  Forall (fun r => r = []) pre ->
  first_entity (pre ++ (d :: rest) :: later) = Some d.
Proof.
  induction 1 as [|r pre -> _ IH]; cbn; auto.
Qed.

Lemma read_counter_raises env sw cn idx k e :
  read_failure env k (ReadCounters sw cn idx) = Some e ->
  isinstance_Exception e = false ->
  read_counter env sw cn idx k
    = mkOut (Raised e) [EvCall (ReadCounters sw cn idx) (Some e)] (S k).
Proof.
  unfold read_failure. rewrite read_counter_spec. cbn zeta.
  destruct (first_entity _); [discriminate|].
  intros -> ->. reflexivity.
Qed.

(** X9. [read_counter] returns the counts of the first entity of the
    first response that is not empty and looks no further: responses
    without entities before it are skipped, and the entities and responses
    after it, and an error the stream would raise after it, change
    neither the result nor what is printed. *)
Theorem X9_read_counter_stops_at_first_entity env sw cn idx k pre d rest later :
  responses env k (ReadCounters sw cn idx) = pre ++ (d :: rest) :: later ->
  Forall (fun r => r = []) pre ->
  read_counter env sw cn idx k
    = mkOut (Ok (packet_count d, byte_count d)) [EvCall (ReadCounters sw cn idx) None] (S k).
Proof.
  intros E P. rewrite read_counter_spec. cbn zeta.
  now rewrite E, (first_entity_skip pre d rest later P).
Qed.

Lemma X9_read_counter_stops_at_first_entity_witness :
  raises late_error_env 0%nat (ReadCounters s1 ingress_counter TID_S1_S2)
    = Some (RpcError "CANCELLED") /\
  read_counter late_error_env s1 ingress_counter TID_S1_S2 0%nat
    = mkOut (Ok (5, 500)) [EvCall (ReadCounters s1 ingress_counter TID_S1_S2) None] 1%nat.
Proof.
  split; [reflexivity|].
  exact (X9_read_counter_stops_at_first_entity late_error_env s1 ingress_counter
           TID_S1_S2 0%nat [[]] (mkCounterData 5 500) [mkCounterData 6 600]
           [[mkCounterData 9 900]] eq_refl (Forall_cons [] eq_refl (Forall_nil _))).
Defined.

(** ** An observation cut short *)

(** X10. [process_link_counters] appends the sent line before it reads
    the egress counter.  So when the egress read is stopped by an
    exception that is not an [Exception] (an operator interrupt), the
    exception leaves [process_link_counters] with the path's sent line
    already in the log and its received line missing. *)
Theorem X10_interrupt_leaves_half_an_observation env src dst tid file k e :
  (forall e1, raises env (S k) (ReadCounters src ingress_counter tid) = Some e1 ->
              isinstance_Exception e1 = true) ->
  (forall data, raises env (S (S k)) (OpenAppendWrite file data) = None) ->
  read_failure env (S (S (S k))) (ReadCounters dst egress_counter tid) = Some e ->
  isinstance_Exception e = false ->
  res (process_link_counters env src dst tid file k) = Raised e /\
  appended (events (process_link_counters env src dst tid file k))
    = [ (file, (sent_line (isoformat env k) (name src)
                  (fst (snapshot env (S k) (ReadCounters src ingress_counter tid))) tid
                ++ nl)%string) ].
Proof.
  intros Hr Ha Hf He. unfold process_link_counters, log_to_file.
  rewrite bind_now, bind_print, res_prepend, events_prepend.
  pose proof (read_counter_returns env src ingress_counter tid (S k) Hr) as R1.
  destruct (read_counter_ok _ _ _ _ _ _ R1) as (_ & E1 & N1).
  unfold ingress_counter, egress_counter in *.
  rewrite (bind_step _ _ _ _ R1), res_prepend, events_prepend, E1, N1.
  destruct (snapshot env (S k) _) as [p b]. cbn [fst].
  rewrite bind_print, res_prepend, events_prepend.
  pose proof (call_returns env _ (S (S k)) (Ha (sent_line (isoformat env k) (name src) p tid ++ nl)%string)) as A.
  destruct (call_ok _ _ _ _ A) as [E2 N2].
  unfold sent_line in *.
  rewrite (bind_step _ _ _ _ A), res_prepend, events_prepend, E2, N2.
  rewrite res_bind, events_bind, (read_counter_raises _ _ _ _ _ _ Hf He).
  cbn [res events]. split; [reflexivity|].
  unfold appended. rewrite !flat_map_app. fold appended.
  rewrite appended_read_events. reflexivity.
Qed.

Lemma X10_interrupt_leaves_half_an_observation_witness :
  res (process_link_counters interrupted_egress_env s1 s2 TID_S1_S2 s1s2_log 0%nat)
    = Raised KeyboardInterrupt /\
  List.length (appended (events
     (process_link_counters interrupted_egress_env s1 s2 TID_S1_S2 s1s2_log 0%nat))) = 1%nat.
Proof.
  destruct (X10_interrupt_leaves_half_an_observation interrupted_egress_env
              s1 s2 TID_S1_S2 s1s2_log 0%nat KeyboardInterrupt
              (fun e1 (K : None = Some e1) =>
                 match K in _ = x return match x with
                                         | Some e' => isinstance_Exception e' = true
                                         | None => True
                                         end
                 with eq_refl => I end)
              (fun _ => eq_refl) eq_refl eq_refl) as [R A].
  split; [exact R|]. rewrite A. reflexivity.
Defined.

(** ** A call that raises ends what it is part of *)

Lemma rs_ret {A} (a : A) : raise_stops (ret a).
Proof. intros n [|i] c e H; discriminate H. Qed.

Lemma rs_print s : raise_stops (print s).
Proof. intros n [|[|i]] c e H; discriminate H. Qed.

Lemma rs_call env c : raise_stops (call env c).
Proof.
  intros n i c' e. unfold call. destruct (raises env n c) as [e'|]; cbn;
    destruct i as [|[|i]]; cbn; try discriminate.
  intro H. inversion H; subst. auto.
Qed.

Lemma rs_bind {A B} (m : M A) (f : A -> M B) :
  raise_stops m -> (forall a, raise_stops (f a)) -> raise_stops (bind m f).
Proof.
  intros Hm Hf n i c e H Q. rewrite events_bind in H. rewrite res_bind, events_bind.
  destruct (Nat.lt_ge_cases i (List.length (events (m n)))) as [Lt|Ge].
  - rewrite nth_error_app1 in H by exact Lt.
    destruct (Hm n i c e H Q) as [R L]. rewrite R, app_nil_r. auto.
  - rewrite nth_error_app2 in H by exact Ge.
    destruct (res (m n)) as [a|e'|].
    + destruct (Hf a _ _ c e H Q) as [R L]. rewrite R, length_app. split; [reflexivity | lia].
    + destruct (i - List.length (events (m n)))%nat; discriminate H.
    + destruct (i - List.length (events (m n)))%nat; discriminate H.
Qed.

Lemma rs_bind_now {B} env (f : string -> M B) :
  (forall ts, raise_stops (f ts)) -> raise_stops (bind (now_isoformat env) f).
Proof. intros H n i c e. rewrite bind_now. apply H. Qed.

Lemma rs_read_counter env sw cn idx : raise_stops (read_counter env sw cn idx).
Proof.
  intros n i c e. rewrite read_counter_spec. cbn zeta.
  destruct (first_entity _).
  - destruct i as [|[|i]]; discriminate.
  - destruct (raises env n _) as [e'|].
    + destruct (isinstance_Exception e') eqn:I; cbn;
        destruct i as [|[|[|i]]]; cbn; try discriminate;
        intros H Q; inversion H; subst; auto.
      specialize (Q Logic.I). congruence.
    + destruct i as [|[|i]]; discriminate.
Qed.

Ltac rs_run :=
  repeat first
    [ apply rs_print | apply rs_ret | apply rs_call | apply rs_read_counter
    | apply rs_bind_now; intros ?
    | apply rs_bind; [| intros ?]
    | match goal with
      | |- raise_stops (match ?x with _ => _ end) => destruct x
      end ].

Lemma rs_process_link_counters env src dst tid file :
  raise_stops (process_link_counters env src dst tid file).
Proof. unfold process_link_counters, log_to_file. rs_run. Qed.

Lemma rs_poll_loop env cycles : raise_stops (poll_loop env cycles).
Proof.
  induction cycles as [|k IH]; cbn [poll_loop].
  - intros n [|i] c e H; discriminate H.
  - apply rs_bind; [|intros _; exact IH]. unfold poll_cycle.
    repeat first [ apply rs_process_link_counters | progress rs_run ].
Qed.

Lemma rs_provision env : raise_stops (provision env).
Proof.
  unfold provision, writeL3ForwardRule, writeTunnelIngressRule,
    writeTunnelTransitRule, writeTunnelEgressRule. rs_run.
Qed.

Lemma preamble_outside env :
  emits (fun ev => match ev with EvCall c _ => outside_try c | _ => True end) (preamble env).
Proof.
  unfold preamble.
  repeat first [ apply emits_call; intro; exact I | apply emits_bind; [| intros ?] ].
Qed.

Lemma skipn_length_app {A} (l l' : list A) k :
  k = List.length l -> skipn k (l ++ l') = l'.
Proof.
  intros ->. rewrite skipn_app, skipn_all, Nat.sub_diag. reflexivity.
Qed.

(** X11. In every run of [main], a [KeyboardInterrupt] or [grpc.RpcError]
    raised by a call inside the [try] block (and not absorbed by
    [read_counter]) is followed by exactly two things: the handler's
    message and the call of [ShutdownAllSwitchConnections]; [main] then
    returns, or raises what the shutdown raised. *)
Theorem X11_caught_exception_leads_to_shutdown env cycles n i c e :
  nth_error (events (main env cycles n)) i = Some (EvCall c (Some e)) ->
  ~ outside_try c ->
  catches_main e = true ->
  (is_read c -> isinstance_Exception e = false) ->
  exists o,
    skipn (S i) (events (main env cycles n))
      = [handler_event e; EvCall ShutdownAllSwitchConnections o] /\
    res (main env cycles n) = match o with
                              | None => Ok tt
                              | Some e' => Raised e'
                              end.
Proof.
  rewrite main_unfold, events_bind, res_bind. intros H Oc Ce Q.
  pose proof (preamble_outside env n) as Po. rewrite Forall_forall in Po.
  destruct (Nat.lt_ge_cases i (List.length (events (preamble env n)))) as [Lt|Ge].
  { rewrite nth_error_app1 in H by exact Lt.
    apply nth_error_In, Po in H. contradiction. }
  rewrite nth_error_app2 in H by exact Ge.
  destruct (res (preamble env n)) as [[]|e0|];
    [| destruct (i - _)%nat; discriminate H | destruct (i - _)%nat; discriminate H].
  set (k := next (preamble env n)) in *.
  set (j := (i - List.length (events (preamble env n)))%nat) in *.
  rewrite events_bind, res_bind in *.
  unfold guarded in *. rewrite events_try_except, res_try_except in *.
  set (body := provision env ;; poll_loop env cycles) in *.
  assert (RS : raise_stops body)
    by (apply rs_bind; [apply rs_provision | intros _; apply rs_poll_loop]).
  destruct (Nat.lt_ge_cases j (List.length (events (body k)))) as [Lj|Gj].
  - rewrite <- app_assoc in H. rewrite nth_error_app1 in H by exact Lj.
    destruct (RS k j c e H Q) as [R L].
    rewrite R, Ce in *.
    destruct (handler_main_returns e (next (body k))) as [Rh Eh].
    rewrite Rh, Eh in *.
    unfold call.
    destruct (raises env _ ShutdownAllSwitchConnections) as [e'|];
      [exists (Some e') | exists None];
      (split; [|reflexivity]);
      cbn [events]; rewrite !app_assoc, <- app_assoc;
      (rewrite skipn_length_app by (rewrite length_app; subst j; lia));
      reflexivity.
  - exfalso. rewrite <- app_assoc in H. rewrite nth_error_app2 in H by exact Gj.
    destruct (res (body k)) as [a|e'|] eqn:R.
    + now apply body_no_exit in R.
    + destruct (catches_main e') eqn:C'.
      * destruct (handler_main_returns e' (next (body k))) as [Rh Eh].
        rewrite Rh, Eh in H.
        destruct (j - List.length (events (body k)))%nat as [|[|x]] eqn:D; cbn in H.
        -- unfold handler_event in H. destruct (isinstance_KeyboardInterrupt e'); discriminate H.
        -- unfold call in H. destruct (raises env _ _); inversion H; subst; apply Oc; exact I.
        -- unfold call in H. destruct (raises env _ _); destruct x; discriminate H.
      * cbn in H. destruct (j - List.length (events (body k)))%nat; discriminate H.
    + cbn in H. destruct (j - List.length (events (body k)))%nat; discriminate H.
Qed.

Lemma X11_caught_exception_leads_to_shutdown_witness :
  exists o,
    skipn 15 (events (main push_fails_env 1 0%nat))
      = [handler_event (RpcError "UNKNOWN"); EvCall ShutdownAllSwitchConnections o] /\
    res (main push_fails_env 1 0%nat) = match o with
                                         | None => Ok tt
                                         | Some e' => Raised e'
                                         end.
Proof.
  exact (X11_caught_exception_leads_to_shutdown push_fails_env 1 0%nat 14%nat
           (SetForwardingPipelineConfig s2) (RpcError "UNKNOWN")
           eq_refl (fun x => x) eq_refl (fun x => match x with end)).
Defined.
